(** * A shallow embedding of the Rockchip ISP1 pipeline handler
    (src/libcamera/pipeline/rkisp1/rkisp1.cpp): the frame table, the
    buffer free queues, the QueueBuffers action, the completion gate, the
    buffer-completion handlers and the start / allocate / free paths. *)

From Stdlib Require Import ZArith List Bool Lia Arith Sorting.Sorted Sorting.Permutation.
Import ListNotations.
Open Scope Z_scope.

(** ** Data model *)

(** [unsigned int] arithmetic: values are kept in [0, 2^32). *)
Definition u32 (z : Z) : Z := z mod 2 ^ 32.

Definition RKISP1_PARAM_BASE : Z := 256.   (* 0x100 *)
Definition RKISP1_STAT_BASE : Z := 512.    (* 0x200 *)
Definition ENOENT : Z := 2.

(** A [Buffer *]: the parameters and statistics buffers are the
    [new Buffer(i)] objects created by [allocateBuffers] (one per slot [i]);
    an image buffer belongs to the Request whose id it carries
    ([buffer->request()]). *)
Inductive Buffer : Type :=
| ParamBuf (i : Z)
| StatBuf (i : Z)
| VideoBuf (req : nat).

Definition Buffer_eq_dec (a b : Buffer) : {a = b} + {a <> b}.
Proof. decide equality; first [apply Z.eq_dec | apply Nat.eq_dec]. Defined.

Definition buffer_eqb (a b : Buffer) : bool :=
  if Buffer_eq_dec a b then true else false.

Definition index (b : Buffer) : Z :=
  match b with ParamBuf i | StatBuf i => i | VideoBuf _ => 0 end.

(** A [Request *]: its identity, and whether the application bound a
    buffer to the camera's stream ([request->findBuffer(stream)]). *)
Record Request : Type := mkRequest {
  rq_id : nat;
  rq_has_buffer : bool
}.

Definition findBuffer (request : Request) : option Buffer :=
  if rq_has_buffer request then Some (VideoBuf (rq_id request)) else None.

Record RkISP1FrameInfo : Type := mkFrameInfo {
  frame : Z;
  request : Request;
  paramBuffer : Buffer;
  statBuffer : Buffer;
  videoBuffer : Buffer;
  paramFilled : bool;
  paramDequeued : bool;
  metadataProcessed : bool
}.

Inductive RkISP1ActionType : Type := SetSensor | SOE | QueueBuffers.

(** A scheduled [FrameAction]: its frame and its type. *)
Record FrameAction : Type := mkAction {
  act_frame : Z;
  act_type : RkISP1ActionType
}.

(** The three video devices of the pipeline. *)
Inductive Dev : Type := ParamDev | StatDev | VideoDev.

Definition Dev_eq_dec (a b : Dev) : {a = b} + {a <> b}.
Proof. decide equality. Defined.

(** Calls made on the video devices. *)
Inductive DevCall : Type :=
| QueueBuffer (d : Dev) (b : Buffer)
| StreamOn (d : Dev)
| StreamOff (d : Dev)
| ReleaseBuffers (d : Dev).

(** Calls made on the IPA. *)
Inductive IpaCall : Type :=
| EvQueueRequest (frame : Z) (paramid : Z)
| EvSignalStatBuffer (frame : Z) (statid : Z)
| MapBuffers (ids : list Z)
| UnmapBuffers (ids : list Z)
| Configure.

(** The handler state: [PipelineHandlerRkISP1] members, the members of
    [RkISP1CameraData] of the active camera, and the observable effects on
    its collaborators (video devices, IPA, Request completion). *)
Record St : Type := mkSt {
  frame_ : Z;                                (* data->frame_ *)
  paramBuffers_ : list Buffer;               (* std::queue, head = front *)
  statBuffers_ : list Buffer;
  frameInfo_ : list (Z * RkISP1FrameInfo);   (* std::map, sorted by key *)
  timeline_ : list FrameAction;              (* pending actions *)
  pending : list nat;                        (* Requests with pending buffers *)
  kq : list (Dev * Buffer);                  (* buffers in kernel custody *)
  devcalls : list DevCall;
  ipacalls : list IpaCall;
  completed : list nat;                      (* completeRequest() calls *)
  activeCamera_ : bool;
  paramPool_ : nat;                          (* paramPool_.count() *)
  statPool_ : nat;
  ipaBuffers_ : list Z;                      (* ids of data->ipaBuffers_ *)
  video_bufs : bool;                         (* device buffers allocated *)
  param_bufs : bool;
  stat_bufs : bool
}.

(** Field updates. *)
Definition set_frame (v : Z) (s : St) : St :=
  mkSt v (paramBuffers_ s) (statBuffers_ s) (frameInfo_ s) (timeline_ s)
    (pending s) (kq s) (devcalls s) (ipacalls s) (completed s)
    (activeCamera_ s) (paramPool_ s) (statPool_ s) (ipaBuffers_ s)
    (video_bufs s) (param_bufs s) (stat_bufs s).
Definition set_queues (pq sq : list Buffer) (s : St) : St :=
  mkSt (frame_ s) pq sq (frameInfo_ s) (timeline_ s)
    (pending s) (kq s) (devcalls s) (ipacalls s) (completed s)
    (activeCamera_ s) (paramPool_ s) (statPool_ s) (ipaBuffers_ s)
    (video_bufs s) (param_bufs s) (stat_bufs s).
Definition set_frameInfo (v : list (Z * RkISP1FrameInfo)) (s : St) : St :=
  mkSt (frame_ s) (paramBuffers_ s) (statBuffers_ s) v (timeline_ s)
    (pending s) (kq s) (devcalls s) (ipacalls s) (completed s)
    (activeCamera_ s) (paramPool_ s) (statPool_ s) (ipaBuffers_ s)
    (video_bufs s) (param_bufs s) (stat_bufs s).
Definition set_timeline (v : list FrameAction) (s : St) : St :=
  mkSt (frame_ s) (paramBuffers_ s) (statBuffers_ s) (frameInfo_ s) v
    (pending s) (kq s) (devcalls s) (ipacalls s) (completed s)
    (activeCamera_ s) (paramPool_ s) (statPool_ s) (ipaBuffers_ s)
    (video_bufs s) (param_bufs s) (stat_bufs s).
Definition set_pending (v : list nat) (s : St) : St :=
  mkSt (frame_ s) (paramBuffers_ s) (statBuffers_ s) (frameInfo_ s)
    (timeline_ s) v (kq s) (devcalls s) (ipacalls s) (completed s)
    (activeCamera_ s) (paramPool_ s) (statPool_ s) (ipaBuffers_ s)
    (video_bufs s) (param_bufs s) (stat_bufs s).
Definition set_kq (v : list (Dev * Buffer)) (s : St) : St :=
  mkSt (frame_ s) (paramBuffers_ s) (statBuffers_ s) (frameInfo_ s)
    (timeline_ s) (pending s) v (devcalls s) (ipacalls s) (completed s)
    (activeCamera_ s) (paramPool_ s) (statPool_ s) (ipaBuffers_ s)
    (video_bufs s) (param_bufs s) (stat_bufs s).
Definition set_devcalls (v : list DevCall) (s : St) : St :=
  mkSt (frame_ s) (paramBuffers_ s) (statBuffers_ s) (frameInfo_ s)
    (timeline_ s) (pending s) (kq s) v (ipacalls s) (completed s)
    (activeCamera_ s) (paramPool_ s) (statPool_ s) (ipaBuffers_ s)
    (video_bufs s) (param_bufs s) (stat_bufs s).
Definition set_ipacalls (v : list IpaCall) (s : St) : St :=
  mkSt (frame_ s) (paramBuffers_ s) (statBuffers_ s) (frameInfo_ s)
    (timeline_ s) (pending s) (kq s) (devcalls s) v (completed s)
    (activeCamera_ s) (paramPool_ s) (statPool_ s) (ipaBuffers_ s)
    (video_bufs s) (param_bufs s) (stat_bufs s).
Definition set_completed (v : list nat) (s : St) : St :=
  mkSt (frame_ s) (paramBuffers_ s) (statBuffers_ s) (frameInfo_ s)
    (timeline_ s) (pending s) (kq s) (devcalls s) (ipacalls s) v
    (activeCamera_ s) (paramPool_ s) (statPool_ s) (ipaBuffers_ s)
    (video_bufs s) (param_bufs s) (stat_bufs s).
Definition set_active (v : bool) (s : St) : St :=
  mkSt (frame_ s) (paramBuffers_ s) (statBuffers_ s) (frameInfo_ s)
    (timeline_ s) (pending s) (kq s) (devcalls s) (ipacalls s) (completed s)
    v (paramPool_ s) (statPool_ s) (ipaBuffers_ s)
    (video_bufs s) (param_bufs s) (stat_bufs s).
Definition set_pools (pp sp : nat) (s : St) : St :=
  mkSt (frame_ s) (paramBuffers_ s) (statBuffers_ s) (frameInfo_ s)
    (timeline_ s) (pending s) (kq s) (devcalls s) (ipacalls s) (completed s)
    (activeCamera_ s) pp sp (ipaBuffers_ s)
    (video_bufs s) (param_bufs s) (stat_bufs s).
Definition set_ipaBuffers (v : list Z) (s : St) : St :=
  mkSt (frame_ s) (paramBuffers_ s) (statBuffers_ s) (frameInfo_ s)
    (timeline_ s) (pending s) (kq s) (devcalls s) (ipacalls s) (completed s)
    (activeCamera_ s) (paramPool_ s) (statPool_ s) v
    (video_bufs s) (param_bufs s) (stat_bufs s).
Definition set_devbufs (vb pb sb : bool) (s : St) : St :=
  mkSt (frame_ s) (paramBuffers_ s) (statBuffers_ s) (frameInfo_ s)
    (timeline_ s) (pending s) (kq s) (devcalls s) (ipacalls s) (completed s)
    (activeCamera_ s) (paramPool_ s) (statPool_ s) (ipaBuffers_ s) vb pb sb.

(** ** [std::map<unsigned int, RkISP1FrameInfo *>] as a sorted association list *)

(** [frameInfo_[k] = v]: insert, or overwrite the entry of key [k]. *)
Fixpoint map_set {A} (k : Z) (v : A) (m : list (Z * A)) : list (Z * A) :=
  match m with
  | [] => [(k, v)]
  | (k', v') :: t =>
      if k <? k' then (k, v) :: m
      else if k =? k' then (k, v) :: t
      else (k', v') :: map_set k v t
  end.

Fixpoint map_find {A} (k : Z) (m : list (Z * A)) : option A :=
  match m with
  | [] => None
  | (k', v) :: t => if k =? k' then Some v else map_find k t
  end.

Fixpoint map_erase {A} (k : Z) (m : list (Z * A)) : list (Z * A) :=
  match m with
  | [] => []
  | (k', v) :: t => if k =? k' then t else (k', v) :: map_erase k t
  end.

(** ** [RkISP1Frames] *)

(** [RkISP1Frames::create]: [None] is the [nullptr] result. *)
Definition create (fr : Z) (rq : Request) (s : St)
  : option (RkISP1FrameInfo * St) :=
  match paramBuffers_ s with
  | [] => None                                   (* "Parameters buffer underrun" *)
  | pb :: pq =>
    match statBuffers_ s with
    | [] => None                                 (* "Statisitc buffer underrun" *)
    | sb :: sq =>
      match findBuffer rq with
      | None => None                             (* "invalid stream" *)
      | Some vb =>
        let info := mkFrameInfo fr rq pb sb vb false false false in
        Some (info, set_frameInfo (map_set fr info (frameInfo_ s))
                      (set_queues pq sq s))
      end
    end
  end.

(** [RkISP1Frames::find(unsigned int frame)]. *)
Definition find_frame (fr : Z) (s : St) : option RkISP1FrameInfo :=
  map_find fr (frameInfo_ s).

(** [RkISP1Frames::destroy]: the [int] result and the new state. *)
Definition destroy (fr : Z) (s : St) : Z * St :=
  match find_frame fr s with
  | None => (- ENOENT, s)
  | Some info =>
      (0, set_frameInfo (map_erase (frame info) (frameInfo_ s))
            (set_queues (paramBuffers_ s ++ [paramBuffer info])
                        (statBuffers_ s ++ [statBuffer info]) s))
  end.

(** [RkISP1Frames::find(Buffer *buffer)]: the first entry, in key order, holding
    the buffer; the key locates the FrameInfo the pointer designates. *)
Fixpoint find_buffer_in (b : Buffer) (m : list (Z * RkISP1FrameInfo))
  : option (Z * RkISP1FrameInfo) :=
  match m with
  | [] => None
  | (k, info) :: t =>
      if buffer_eqb (paramBuffer info) b || buffer_eqb (statBuffer info) b
         || buffer_eqb (videoBuffer info) b
      then Some (k, info) else find_buffer_in b t
  end.

Definition find_buffer (b : Buffer) (s : St) : option (Z * RkISP1FrameInfo) :=
  find_buffer_in b (frameInfo_ s).

(** [RkISP1Frames::find(Request *request)]. *)
Fixpoint find_request_in (r : nat) (m : list (Z * RkISP1FrameInfo))
  : option (Z * RkISP1FrameInfo) :=
  match m with
  | [] => None
  | (k, info) :: t =>
      if Nat.eqb (rq_id (request info)) r then Some (k, info)
      else find_request_in r t
  end.

Definition find_request (r : nat) (s : St) : option (Z * RkISP1FrameInfo) :=
  find_request_in r (frameInfo_ s).

(** Writing through a [RkISP1FrameInfo *] held in the map at key [k]. *)
Definition update_info (k : Z) (info : RkISP1FrameInfo) (s : St) : St :=
  set_frameInfo (map_set k info (frameInfo_ s)) s.

Definition with_paramFilled (i : RkISP1FrameInfo) : RkISP1FrameInfo :=
  mkFrameInfo (frame i) (request i) (paramBuffer i) (statBuffer i)
    (videoBuffer i) true (paramDequeued i) (metadataProcessed i).
Definition with_paramDequeued (i : RkISP1FrameInfo) : RkISP1FrameInfo :=
  mkFrameInfo (frame i) (request i) (paramBuffer i) (statBuffer i)
    (videoBuffer i) (paramFilled i) true (metadataProcessed i).
Definition with_metadataProcessed (i : RkISP1FrameInfo) : RkISP1FrameInfo :=
  mkFrameInfo (frame i) (request i) (paramBuffer i) (statBuffer i)
    (videoBuffer i) (paramFilled i) (paramDequeued i) true.

(** ** Collaborators *)

Definition dev_buffer_eqb (x y : Dev * Buffer) : bool :=
  if Dev_eq_dec (fst x) (fst y) then buffer_eqb (snd x) (snd y) else false.

(** [V4L2VideoDevice::queueBuffer]: the call, and the buffer handed to the
    kernel; the kernel refuses a buffer it already holds (the error is
    ignored by the callers). *)
Definition dev_queueBuffer (d : Dev) (b : Buffer) (s : St) : St :=
  let s1 := set_devcalls (devcalls s ++ [QueueBuffer d b]) s in
  if existsb (dev_buffer_eqb (d, b)) (kq s) then s1
  else set_kq (kq s ++ [(d, b)]) s1.

Definition devcall (c : DevCall) (s : St) : St :=
  set_devcalls (devcalls s ++ [c]) s.

Definition ipacall (c : IpaCall) (s : St) : St :=
  set_ipacalls (ipacalls s ++ [c]) s.

(** [Timeline::scheduleAction]: the action is added to the pending list.
    The Timeline (timeline.cpp) runs an action whose time has already
    passed inside this call; here such an action stays pending and runs as
    the next event (an [EFire] of the transition system below), so results
    about single calls do not cover that case. *)
Definition scheduleAction (a : FrameAction) (s : St) : St :=
  set_timeline (timeline_ s ++ [a]) s.

(** [Request::hasPendingBuffers]. *)
Definition hasPendingBuffers (r : nat) (s : St) : bool :=
  existsb (Nat.eqb r) (pending s).

(** [PipelineHandler::completeBuffer]: the Request no longer waits for the
    buffer. *)
Definition completeBuffer (r : nat) (s : St) : St :=
  set_pending (filter (fun x => negb (Nat.eqb x r)) (pending s)) s.

(** [PipelineHandler::completeRequest]: the Request is handed back. *)
Definition completeRequest (r : nat) (s : St) : St :=
  set_completed (completed s ++ [r]) s.

(** ** [PipelineHandlerRkISP1] *)

(** [PipelineHandlerRkISP1::tryCompleteRequest]. *)
Definition tryCompleteRequest (r : nat) (s : St) : St :=
  match find_request r s with
  | None => s
  | Some (_, info) =>
      if hasPendingBuffers r s then s
      else if negb (metadataProcessed info) then s
      else if negb (paramDequeued info) then s
      else snd (destroy (frame info) (completeRequest r s))
  end.

(** [PipelineHandlerRkISP1::queueRequest] (after the generic
    [PipelineHandler::queueRequest] bookkeeping): the return code and the
    new state. *)
Definition queueRequest (rq : Request) (s : St) : Z * St :=
  match create (frame_ s) rq s with
  | None => (- ENOENT, s)
  | Some (info, s1) =>
      let s2 := ipacall (EvQueueRequest (frame_ s1)
                           (Z.lor RKISP1_PARAM_BASE (index (paramBuffer info)))) s1 in
      let s3 := scheduleAction (mkAction (frame_ s2) QueueBuffers) s2 in
      (0, set_frame (u32 (frame_ s3 + 1)) s3)
  end.

(** [RkISP1ActionQueueBuffers::run]; [None] is the [Fatal] log (abort). *)
Definition queueBuffers_run (fr : Z) (s : St) : option St :=
  match find_frame fr s with
  | None => None
  | Some info =>
      let s1 := if paramFilled info
                then dev_queueBuffer ParamDev (paramBuffer info) s
                else s in
      let s2 := dev_queueBuffer StatDev (statBuffer info) s1 in
      Some (dev_queueBuffer VideoDev (videoBuffer info) s2)
  end.

(** The operations the IPA sends back through [queueFrameAction]. *)
Inductive IpaOp : Type :=
| RKISP1_IPA_ACTION_V4L2_SET
| RKISP1_IPA_ACTION_PARAM_FILLED
| RKISP1_IPA_ACTION_METADATA
| IpaUnknown (op : Z).

(** [RkISP1CameraData::metadataReady] (the metadata list itself is not
    tracked). *)
Definition metadataReady (fr : Z) (s : St) : St :=
  match find_frame fr s with
  | None => s
  | Some info =>
      let info' := with_metadataProcessed info in
      tryCompleteRequest (rq_id (request info')) (update_info fr info' s)
  end.

(** [RkISP1CameraData::queueFrameAction]. *)
Definition queueFrameAction (fr : Z) (op : IpaOp) (s : St) : St :=
  match op with
  | RKISP1_IPA_ACTION_V4L2_SET => scheduleAction (mkAction fr SetSensor) s
  | RKISP1_IPA_ACTION_PARAM_FILLED =>
      match find_frame fr s with
      | None => s
      | Some info => update_info fr (with_paramFilled info) s
      end
  | RKISP1_IPA_ACTION_METADATA => metadataReady fr s
  | IpaUnknown _ => s
  end.

(** [PipelineHandlerRkISP1::bufferReady] for a completed image buffer with
    kernel sequence [sequence]; the SOE notification of the timeline only
    feeds its timing and is not modelled. [None]: the buffer carries no
    Request. *)
Definition bufferReady (buffer : Buffer) (sequence : Z) (s : St) : option St :=
  match buffer with
  | VideoBuf r =>
      let s1 := if frame_ s <=? sequence then set_frame (u32 (sequence + 1)) s
                else s in
      Some (tryCompleteRequest r (completeBuffer r s1))
  | _ => None
  end.

(** [PipelineHandlerRkISP1::paramReady]; [None] is the dereference of the
    [nullptr] returned by the lookup. *)
Definition paramReady (buffer : Buffer) (s : St) : option St :=
  match find_buffer buffer s with
  | None => None
  | Some (k, info) =>
      let info' := with_paramDequeued info in
      Some (tryCompleteRequest (rq_id (request info')) (update_info k info' s))
  end.

(** [PipelineHandlerRkISP1::statReady]. *)
Definition statReady (buffer : Buffer) (s : St) : St :=
  match find_buffer buffer s with
  | None => s
  | Some (_, info) =>
      ipacall (EvSignalStatBuffer (frame info)
                 (Z.lor RKISP1_STAT_BASE (index (statBuffer info)))) s
  end.

(** [PipelineHandlerRkISP1::start]; [param_ret], [stat_ret] and
    [video_ret] are the results of the three [streamOn] calls. The IPA
    [configure] call returns no result. *)
Definition start (param_ret stat_ret video_ret : Z) (s0 : St) : Z * St :=
  let s := devcall (StreamOn ParamDev) (set_frame 0 s0) in
  if negb (param_ret =? 0) then (param_ret, s) else
  let s := devcall (StreamOn StatDev) s in
  if negb (stat_ret =? 0) then (stat_ret, devcall (StreamOff ParamDev) s) else
  let s := devcall (StreamOn VideoDev) s in
  let s := if negb (video_ret =? 0)
           then devcall (StreamOff StatDev) (devcall (StreamOff ParamDev) s)
           else s in
  let s := set_active true s in
  (video_ret, ipacall Configure s).

(** [PipelineHandlerRkISP1::stop]: the [streamOff] failures are only
    logged; after [VIDIOC_STREAMOFF] the kernel holds no buffer of the
    device. *)
Definition stop (s0 : St) : St :=
  let s := devcall (StreamOff VideoDev) s0 in
  let s := devcall (StreamOff StatDev) s in
  let s := devcall (StreamOff ParamDev) s in
  let s := set_kq [] s in
  let s := set_timeline [] s in
  set_active false s.

(** [releaseBuffers] on a device (its result is only logged). *)
Definition releaseBuffers (d : Dev) (s : St) : St :=
  let s := devcall (ReleaseBuffers d) s in
  match d with
  | VideoDev => set_devbufs false (param_bufs s) (stat_bufs s) s
  | ParamDev => set_devbufs (video_bufs s) false (stat_bufs s) s
  | StatDev => set_devbufs (video_bufs s) (param_bufs s) false s
  end.

(** The slots [0 .. n-1] pushed in order, as the [for] loops do. *)
Definition slots (n : nat) : list Z := map Z.of_nat (seq 0 n).

(** [PipelineHandlerRkISP1::allocateBuffers] for a stream of
    [bufferCount] buffers (an [unsigned int], so [bufferCount + 1] is taken
    modulo 2^32: [createBuffers] and both [for] loops use that count);
    [video_ret], [param_ret] and [stat_ret] are the results of the export
    (or import) calls. *)
Definition allocateBuffers (bufferCount : Z) (video_ret param_ret stat_ret : Z)
    (s0 : St) : Z * St :=
  let n := Z.to_nat (u32 (bufferCount + 1)) in
  if negb (video_ret =? 0) then (video_ret, s0) else
  let s := set_devbufs true (param_bufs s0) (stat_bufs s0) s0 in
  let s := set_pools n (statPool_ s) s in
  if negb (param_ret =? 0) then (param_ret, releaseBuffers VideoDev s) else
  let s := set_devbufs (video_bufs s) true (stat_bufs s) s in
  let s := set_pools (paramPool_ s) n s in
  if negb (stat_ret =? 0)
  then (stat_ret, releaseBuffers VideoDev (releaseBuffers ParamDev s)) else
  let s := set_devbufs (video_bufs s) (param_bufs s) true s in
  let s := set_ipaBuffers (ipaBuffers_ s ++ map (Z.lor RKISP1_PARAM_BASE) (slots n)) s in
  let s := set_queues (paramBuffers_ s ++ map ParamBuf (slots n)) (statBuffers_ s) s in
  let s := set_ipaBuffers (ipaBuffers_ s ++ map (Z.lor RKISP1_STAT_BASE) (slots n)) s in
  let s := set_queues (paramBuffers_ s) (statBuffers_ s ++ map StatBuf (slots n)) s in
  (stat_ret, ipacall (MapBuffers (ipaBuffers_ s)) s).

(** [PipelineHandlerRkISP1::freeBuffers]. *)
Definition freeBuffers (s0 : St) : Z * St :=
  let s := set_queues (paramBuffers_ s0) [] s0 in
  let s := set_queues [] (statBuffers_ s) s in
  let ids := ipaBuffers_ s in
  let s := ipacall (UnmapBuffers ids) s in
  let s := set_ipaBuffers [] s in
  let s := releaseBuffers ParamDev s in
  let s := releaseBuffers StatDev s in
  (0, releaseBuffers VideoDev s).

(** ** The camera after [allocateBuffers], as a transition system

    Every entry point runs on one thread; the environment picks the next
    event. While the camera runs: the application queues a Request it has
    not queued before (neither in flight nor completed), a pending timeline
    action fires (the Timeline, in timeline.cpp, fires actions by time; any
    pending one may come next here), the IPA sends an action, a video device
    returns a buffer it holds, or the camera is stopped. A stopped camera
    can be started again. *)

Fixpoint remove_one (x : Dev * Buffer) (l : list (Dev * Buffer))
  : list (Dev * Buffer) :=
  match l with
  | [] => []
  | y :: t => if dev_buffer_eqb x y then t else y :: remove_one x t
  end.

Fixpoint remove_nth {A} (n : nat) (l : list A) : list A :=
  match n, l with
  | _, [] => []
  | O, _ :: t => t
  | S n', x :: t => x :: remove_nth n' t
  end.

(** The kernel hands back buffer [b] of device [d]. *)
Definition dequeue (d : Dev) (b : Buffer) (s : St) : option St :=
  if existsb (dev_buffer_eqb (d, b)) (kq s)
  then Some (set_kq (remove_one (d, b) (kq s)) s) else None.

Definition fresh_request (r : nat) (s : St) : bool :=
  negb (existsb (Nat.eqb r) (completed s))
  && match find_request r s with None => true | Some _ => false end.

Inductive Ev : Type :=
| EQueue (rq : Request)
| EFire (i : nat)
| EIpa (fr : Z) (op : IpaOp)
| EParamDone (b : Buffer)
| EStatDone (b : Buffer)
| EImageDone (b : Buffer) (sequence : Z)
| EStop
| EStart (param_ret stat_ret video_ret : Z).

(** One event; [None] when the event cannot happen, or when the handler
    aborts. Queuing a Request first prepares it ([Request::prepare]: its
    buffer becomes pending), as [Camera::queueRequest] does. *)
Definition step (s : St) (e : Ev) : option St :=
  match e with
  | EStart pr sr vr =>
      if activeCamera_ s then None else Some (snd (start pr sr vr s))
  | _ =>
  if negb (activeCamera_ s) then None else
  match e with
  | EStart _ _ _ => None
  | EStop => Some (stop s)
  | EQueue rq =>
      if fresh_request (rq_id rq) s then
        let s1 := if rq_has_buffer rq
                  then set_pending (pending s ++ [rq_id rq]) s else s in
        Some (snd (queueRequest rq s1))
      else None
  | EFire i =>
      match nth_error (timeline_ s) i with
      | None => None
      | Some a =>
          let s1 := set_timeline (remove_nth i (timeline_ s)) s in
          match act_type a with
          | QueueBuffers => queueBuffers_run (act_frame a) s1
          | _ => Some s1
          end
      end
  | EIpa fr op => Some (queueFrameAction fr op s)
  | EParamDone b =>
      match dequeue ParamDev b s with None => None | Some s1 => paramReady b s1 end
  | EStatDone b =>
      match dequeue StatDev b s with None => None | Some s1 => Some (statReady b s1) end
  | EImageDone b sq =>
      if (0 <=? sq) && (sq <? 2 ^ 32) then
        match dequeue VideoDev b s with
        | None => None
        | Some s1 => bufferReady b sq s1
        end
      else None
  end
  end.

Fixpoint run (s : St) (evs : list Ev) : option St :=
  match evs with
  | [] => Some s
  | e :: t => match step s e with None => None | Some s' => run s' t end
  end.

(** The state right after [allocateBuffers] (with [n] parameter and
    statistics buffers) and a successful [start]. *)
Definition session_start (n : nat) (s : St) : Prop :=
  frame_ s = 0 /\ paramBuffers_ s = map ParamBuf (slots n)
  /\ statBuffers_ s = map StatBuf (slots n) /\ frameInfo_ s = []
  /\ timeline_ s = [] /\ kq s = [] /\ completed s = []
  /\ activeCamera_ s = true.


(** Runs in which the environment's choices satisfy [ok]; [n] is the
    number of parameters (and statistics) buffers [allocateBuffers] made. *)
Inductive reachable_with (ok : St -> Ev -> bool) (n : nat) : St -> Prop :=
| reach_start s : session_start n s -> reachable_with ok n s
| reach_step s e s' :
    reachable_with ok n s -> ok s e = true -> step s e = Some s' ->
    reachable_with ok n s'.

Definition any_event (_ : St) (_ : Ev) : bool := true.

(** [queueRequest] is only asked to use a frame number absent from the
    FrameTable. *)
Definition frame_free (s : St) : bool :=
  match find_frame (frame_ s) s with None => true | Some _ => false end.

Definition is_qb_for (fr : Z) (a : FrameAction) : bool :=
  match act_type a with QueueBuffers => act_frame a =? fr | _ => false end.

(** ... and without a pending QueueBuffers action for it. *)
Definition frame_unused (s : St) : bool :=
  frame_free s && negb (existsb (is_qb_for (frame_ s)) (timeline_ s)).

Definition on_queue (p : St -> bool) (s : St) (e : Ev) : bool :=
  match e with EQueue _ => p s | _ => true end.

(** ** Camera configuration: [RkISP1CameraConfiguration::validate] and
    [generateConfiguration] *)

(** [Size]: [unsigned int] width and height. *)
Record Size : Type := mkSize { width : Z; height : Z }.

(** [Size::operator==]. *)
Definition size_eqb (a b : Size) : bool :=
  (width a =? width b) && (height a =? height b).

Record StreamConfiguration : Type := mkStreamCfg {
  pixelFormat : Z;
  size : Size;
  bufferCount : Z
}.

Record V4L2SubdeviceFormat : Type := mkSubdevFmt {
  mbus_code : Z;
  sf_size : Size
}.

Inductive Status : Type := Valid | Adjusted | Invalid.

(** The [CameraSensor] as seen by the pipeline: [getFormat] picks a format
    for a list of media bus codes and a size; [resolution] is the size of
    its pixel array. *)
Record CameraSensor : Type := mkSensor {
  getFormat : list Z -> Size -> V4L2SubdeviceFormat;
  resolution : Size
}.

(** [CameraConfiguration::config_] and [sensorFormat_]. *)
Record RkISP1CameraConfiguration : Type := mkConfig {
  config_ : list StreamConfiguration;
  sensorFormat_ : V4L2SubdeviceFormat
}.

(** [v4l2_fourcc(a, b, c, d)] over the character codes. *)
Definition v4l2_fourcc (a b c d : Z) : Z :=
  Z.lor a (Z.lor (Z.shiftl b 8) (Z.lor (Z.shiftl c 16) (Z.shiftl d 24))).

Definition V4L2_PIX_FMT_YUYV : Z := v4l2_fourcc 89 85 89 86.   (* YUYV *)
Definition V4L2_PIX_FMT_YVYU : Z := v4l2_fourcc 89 86 89 85.   (* YVYU *)
Definition V4L2_PIX_FMT_VYUY : Z := v4l2_fourcc 86 89 85 89.   (* VYUY *)
Definition V4L2_PIX_FMT_NV16 : Z := v4l2_fourcc 78 86 49 54.   (* NV16 *)
Definition V4L2_PIX_FMT_NV61 : Z := v4l2_fourcc 78 86 54 49.   (* NV61 *)
Definition V4L2_PIX_FMT_NV21 : Z := v4l2_fourcc 78 86 50 49.   (* NV21 *)
Definition V4L2_PIX_FMT_NV12 : Z := v4l2_fourcc 78 86 49 50.   (* NV12 *)
Definition V4L2_PIX_FMT_GREY : Z := v4l2_fourcc 71 82 69 89.   (* GREY *)
Definition V4L2_META_FMT_RK_ISP1_PARAMS : Z := v4l2_fourcc 82 75 49 80. (* RK1P *)
Definition V4L2_META_FMT_RK_ISP1_STAT_3A : Z := v4l2_fourcc 82 75 49 83. (* RK1S *)

Definition MEDIA_BUS_FMT_SBGGR8_1X8 : Z := 12289.     (* 0x3001 *)
Definition MEDIA_BUS_FMT_SGRBG8_1X8 : Z := 12290.     (* 0x3002 *)
Definition MEDIA_BUS_FMT_SBGGR10_1X10 : Z := 12295.   (* 0x3007 *)
Definition MEDIA_BUS_FMT_SBGGR12_1X12 : Z := 12296.   (* 0x3008 *)
Definition MEDIA_BUS_FMT_SGRBG10_1X10 : Z := 12298.   (* 0x300a *)
Definition MEDIA_BUS_FMT_SGBRG10_1X10 : Z := 12302.   (* 0x300e *)
Definition MEDIA_BUS_FMT_SRGGB10_1X10 : Z := 12303.   (* 0x300f *)
Definition MEDIA_BUS_FMT_SGBRG12_1X12 : Z := 12304.   (* 0x3010 *)
Definition MEDIA_BUS_FMT_SGRBG12_1X12 : Z := 12305.   (* 0x3011 *)
Definition MEDIA_BUS_FMT_SRGGB12_1X12 : Z := 12306.   (* 0x3012 *)
Definition MEDIA_BUS_FMT_SGBRG8_1X8 : Z := 12307.     (* 0x3013 *)
Definition MEDIA_BUS_FMT_SRGGB8_1X8 : Z := 12308.     (* 0x3014 *)
Definition MEDIA_BUS_FMT_YUYV8_2X8 : Z := 8200.       (* 0x2008 *)

Definition EINVAL : Z := 22.
Definition ENODEV : Z := 19.

(** [RkISP1CameraData::RKISP1_BUFFER_COUNT]. *)
Definition RKISP1_BUFFER_COUNT : Z := 4.

(** The [formats] array of [validate]. *)
Definition formats : list Z :=
  [V4L2_PIX_FMT_YUYV; V4L2_PIX_FMT_YVYU; V4L2_PIX_FMT_VYUY; V4L2_PIX_FMT_NV16;
   V4L2_PIX_FMT_NV61; V4L2_PIX_FMT_NV21; V4L2_PIX_FMT_NV12; V4L2_PIX_FMT_GREY].

(** The media bus codes [validate] asks the sensor for, in order. *)
Definition sensor_mbus_codes : list Z :=
  [MEDIA_BUS_FMT_SBGGR12_1X12; MEDIA_BUS_FMT_SGBRG12_1X12;
   MEDIA_BUS_FMT_SGRBG12_1X12; MEDIA_BUS_FMT_SRGGB12_1X12;
   MEDIA_BUS_FMT_SBGGR10_1X10; MEDIA_BUS_FMT_SGBRG10_1X10;
   MEDIA_BUS_FMT_SGRBG10_1X10; MEDIA_BUS_FMT_SRGGB10_1X10;
   MEDIA_BUS_FMT_SBGGR8_1X8; MEDIA_BUS_FMT_SGBRG8_1X8;
   MEDIA_BUS_FMT_SGRBG8_1X8; MEDIA_BUS_FMT_SRGGB8_1X8].

(** The sensor format [validate] selects for a requested size: the
    sensor's answer, whose size falls back to the sensor resolution when
    one of its dimensions is 0. *)
Definition select_sensor_format (sensor : CameraSensor) (sz : Size)
  : V4L2SubdeviceFormat :=
  let sf := getFormat sensor sensor_mbus_codes sz in
  if (width (sf_size sf) =? 0) || (height (sf_size sf) =? 0)
  then mkSubdevFmt (mbus_code sf) (resolution sensor)
  else sf.

(** The [std::max] / [std::min] clamp to the hardware bounds. *)
Definition clamp_size (sz : Size) : Size :=
  mkSize (Z.max 32 (Z.min 4416 (width sz))) (Z.max 16 (Z.min 3312 (height sz))).

(** The default size for a request with a 0 dimension: [None] is the
    division by a 0 sensor width. *)
Definition default_size (sf : V4L2SubdeviceFormat) (sz : Size) : option Size :=
  if (width sz =? 0) || (height sz =? 0) then
    if width (sf_size sf) =? 0 then None
    else Some (mkSize 1280 (u32 (1280 * height (sf_size sf)) / width (sf_size sf)))
  else Some sz.

(** [RkISP1CameraConfiguration::validate]: the status and the configuration
    as left by the call; [None] is the division by zero. *)
Definition validate (sensor : CameraSensor) (c : RkISP1CameraConfiguration)
  : option (Status * RkISP1CameraConfiguration) :=
  match config_ c with
  | [] => Some (Invalid, c)
  | cfg :: rest =>
      let status := match rest with [] => Valid | _ :: _ => Adjusted end in
      let '(pf, status) :=
        if existsb (Z.eqb (pixelFormat cfg)) formats
        then (pixelFormat cfg, status)
        else (V4L2_PIX_FMT_NV12, Adjusted) in
      let sf := select_sensor_format sensor (size cfg) in
      match default_size sf (size cfg) with
      | None => None
      | Some sz =>
          let sz' := clamp_size sz in
          let status := if size_eqb sz' (size cfg) then status else Adjusted in
          Some (status, mkConfig [mkStreamCfg pf sz' RKISP1_BUFFER_COUNT] sf)
      end
  end.

Inductive StreamRole : Type := StillCapture | VideoRecording | Viewfinder.

(** [RkISP1CameraConfiguration]'s constructor: an empty configuration. *)
Definition empty_config : RkISP1CameraConfiguration :=
  mkConfig [] (mkSubdevFmt 0 (mkSize 0 0)).

(** [PipelineHandlerRkISP1::generateConfiguration]; the status returned by
    [validate] is dropped. *)
Definition generateConfiguration (sensor : CameraSensor) (roles : list StreamRole)
  : option RkISP1CameraConfiguration :=
  let config := empty_config in
  match roles with
  | [] => Some config
  | _ :: _ =>
      let cfg := mkStreamCfg V4L2_PIX_FMT_NV12 (resolution sensor) 0 in
      match validate sensor (mkConfig (config_ config ++ [cfg]) (sensorFormat_ config)) with
      | None => None
      | Some (_, c) => Some c
      end
  end.

(** ** [PipelineHandlerRkISP1::configure] *)

(** A link to the CSI-2 receiver's sink pad: the sensor entity at its
    source and its [MEDIA_LNK_FL_ENABLED] flag. *)
Record MediaLink : Type := mkLink {
  link_source : nat;
  link_enabled : bool
}.

Record V4L2DeviceFormat : Type := mkDevFmt {
  fourcc : Z;
  dev_size : Size;
  planesCount : Z
}.

(** The calls [configure] makes on the media graph and the devices. *)
Inductive ConfCall : Type :=
| CSetLink (source : nat) (enable : bool)
| CSensorSetFormat (f : V4L2SubdeviceFormat)
| CDphySetFormat (pad : Z) (f : V4L2SubdeviceFormat)
| CDphyGetFormat (pad : Z)
| CIspSetFormat (pad : Z) (f : V4L2SubdeviceFormat)
| CVideoSetFormat (f : V4L2DeviceFormat)
| CParamSetFormat (f : V4L2DeviceFormat)
| CStatSetFormat (f : V4L2DeviceFormat).

(** The devices' answers: the return code and the format written back
    through the pointer. [link_ret n] answers the [n]-th
    [MediaLink::setEnabled] call. *)
Record ConfigureEnv : Type := mkConfigureEnv {
  link_ret : nat -> Z;
  sensor_setFormat : V4L2SubdeviceFormat -> Z * V4L2SubdeviceFormat;
  dphy_setFormat : V4L2SubdeviceFormat -> Z * V4L2SubdeviceFormat;
  dphy_getFormat : Z * V4L2SubdeviceFormat;
  isp_setFormat : Z -> V4L2SubdeviceFormat -> Z * V4L2SubdeviceFormat;
  video_setFormat : V4L2DeviceFormat -> Z * V4L2DeviceFormat;
  param_setFormat : V4L2DeviceFormat -> Z * V4L2DeviceFormat;
  stat_setFormat : V4L2DeviceFormat -> Z * V4L2DeviceFormat
}.

(** The loop over the sink pad's links: [Some ret] is the early return. *)
Fixpoint configure_links (env : ConfigureEnv) (sensor : nat) (n : nat)
    (links : list MediaLink) : option Z * list ConfCall :=
  match links with
  | [] => (None, [])
  | l :: t =>
      let enable := Nat.eqb (link_source l) sensor in
      if Bool.eqb (link_enabled l) enable then configure_links env sensor n t
      else
        let ret := link_ret env n in
        if ret <? 0 then (Some ret, [CSetLink (link_source l) enable])
        else let '(r, cs) := configure_links env sensor (S n) t in
             (r, CSetLink (link_source l) enable :: cs)
  end.

(** [configure] for the camera of sensor entity [sensor]: the return code,
    the calls, and whether [cfg.setStream] was reached. [None] is
    [config->at(0)] on an empty configuration. *)
Definition configure (env : ConfigureEnv) (sensor : nat) (links : list MediaLink)
    (c : RkISP1CameraConfiguration) : option (Z * list ConfCall * bool) :=
  match config_ c with
  | [] => None
  | cfg :: _ => Some (
  let '(err, cs) := configure_links env sensor 0 links in
  match err with Some ret => (ret, cs, false) | None =>
  let format := sensorFormat_ c in
  let cs := cs ++ [CSensorSetFormat format] in
  let '(ret, format) := sensor_setFormat env format in
  if ret <? 0 then (ret, cs, false) else
  let cs := cs ++ [CDphySetFormat 0 format] in
  let '(ret, format) := dphy_setFormat env format in
  if ret <? 0 then (ret, cs, false) else
  let cs := cs ++ [CDphyGetFormat 1] in
  let '(ret, format) := dphy_getFormat env in
  if ret <? 0 then (ret, cs, false) else
  let cs := cs ++ [CIspSetFormat 0 format] in
  let '(ret, format) := isp_setFormat env 0 format in
  if ret <? 0 then (ret, cs, false) else
  let format := mkSubdevFmt MEDIA_BUS_FMT_YUYV8_2X8 (sf_size format) in
  let cs := cs ++ [CIspSetFormat 2 format] in
  let '(ret, format) := isp_setFormat env 2 format in
  if ret <? 0 then (ret, cs, false) else
  let outputFormat := mkDevFmt (pixelFormat cfg) (size cfg) 2 in
  let cs := cs ++ [CVideoSetFormat outputFormat] in
  let '(ret, outputFormat) := video_setFormat env outputFormat in
  if negb (ret =? 0) then (ret, cs, false) else
  if negb (size_eqb (dev_size outputFormat) (size cfg))
     || negb (fourcc outputFormat =? pixelFormat cfg)
  then (- EINVAL, cs, false) else
  let paramFormat := mkDevFmt V4L2_META_FMT_RK_ISP1_PARAMS (mkSize 0 0) 0 in
  let cs := cs ++ [CParamSetFormat paramFormat] in
  let '(ret, _) := param_setFormat env paramFormat in
  if negb (ret =? 0) then (ret, cs, false) else
  let statFormat := mkDevFmt V4L2_META_FMT_RK_ISP1_STAT_3A (mkSize 0 0) 0 in
  let cs := cs ++ [CStatSetFormat statFormat] in
  let '(ret, _) := stat_setFormat env statFormat in
  if negb (ret =? 0) then (ret, cs, false) else
  (0, cs, true)
  end)
  end.

(** ** Match and setup: [initLinks], [createCamera], [loadIPA], [match] *)

(** The nodes [match] opens, in order. *)
Inductive MNode : Type := NDphy | NIsp | NMainpath | NStatistics | NInputParams.

(** The answers of the media device, the nodes, the sensors and the IPA
    manager. A link lookup is [None] for [nullptr], else the result of
    its [setEnabled(true)]; [dphy_pad0] lists the sensor entities at the
    source of the links of the CSI-2 receiver's pad 0 ([None]: no pad);
    [sensor_init_ret i] and [createIPA_ok i] answer for the [i]-th of them. *)
Record MatchEnv : Type := mkMatchEnv {
  acquired : bool;
  open_ret : MNode -> Z;
  disableLinks_ret : Z;
  dphy_isp_link : option Z;
  isp_main_link : option Z;
  dphy_pad0 : option (list nat);
  sensor_init_ret : nat -> Z;
  createIPA_ok : nat -> bool
}.

(** [PipelineHandlerRkISP1::initLinks]. *)
Definition initLinks (env : MatchEnv) : Z :=
  let ret := disableLinks_ret env in
  if ret <? 0 then ret else
  match dphy_isp_link env with
  | None => - ENODEV
  | Some ret =>
      if ret <? 0 then ret else
      match isp_main_link env with
      | None => - ENODEV
      | Some ret => if ret <? 0 then ret else 0
      end
  end.

(** [RkISP1CameraData::loadIPA] for the [i]-th camera. *)
Definition loadIPA (env : MatchEnv) (i : nat) : Z :=
  if createIPA_ok env i then 0 else - ENOENT.

(** [PipelineHandlerRkISP1::createCamera] for the [i]-th sensor entity:
    the return code and the registered cameras. *)
Definition createCamera (env : MatchEnv) (i : nat) (sensor : nat)
    (cameras : list nat) : Z * list nat :=
  let ret := sensor_init_ret env i in
  if negb (ret =? 0) then (ret, cameras) else
  let ret := loadIPA env i in
  if negb (ret =? 0) then (ret, cameras) else
  (0, cameras ++ [sensor]).

(** The [for] loop of [match]: the results of [createCamera] are dropped. *)
Fixpoint create_cameras (env : MatchEnv) (i : nat) (sensors : list nat)
    (cameras : list nat) : list nat :=
  match sensors with
  | [] => cameras
  | sn :: t => create_cameras env (S i) t (snd (createCamera env i sn cameras))
  end.

(** The [open()] calls of [match], in order, up to the first failure. *)
Fixpoint open_nodes (env : MatchEnv) (ns : list MNode) : bool :=
  match ns with
  | [] => true
  | n :: t => if open_ret env n <? 0 then false else open_nodes env t
  end.

(** [PipelineHandlerRkISP1::match]: the result, whether the [bufferReady]
    slots were connected, and the registered cameras. *)
Definition match_ (env : MatchEnv) : bool * bool * list nat :=
  if negb (acquired env) then (false, false, []) else
  if negb (open_nodes env [NDphy; NIsp; NMainpath; NStatistics; NInputParams])
  then (false, false, []) else
  if initLinks env <? 0 then (false, true, []) else
  match dphy_pad0 env with
  | None => (false, true, [])
  | Some sensors => (true, true, create_cameras env 0 sensors [])
  end.

(** ** Notions used by the properties of the model *)

(** A FrameInfo holds a buffer as its parameters, statistics or image
    buffer (the test of [RkISP1Frames::find(Buffer *buffer)]). *)
Definition info_holds (b : Buffer) (info : RkISP1FrameInfo) : Prop :=
  paramBuffer info = b \/ statBuffer info = b \/ videoBuffer info = b.

(** The hardware bounds [validate] clamps a size to. *)
Definition size_in_bounds (sz : Size) : Prop :=
  32 <= width sz <= 4416 /\ 16 <= height sz <= 3312.

(** A link whose state differs from the one [configure] wants for the
    camera of sensor entity [sensor]. *)
Definition needs_change (sensor : nat) (l : MediaLink) : bool :=
  negb (Bool.eqb (link_enabled l) (Nat.eqb (link_source l) sensor)).

(** The [setEnabled] call [configure] makes on such a link. *)
Definition set_link_call (sensor : nat) (l : MediaLink) : ConfCall :=
  CSetLink (link_source l) (Nat.eqb (link_source l) sensor).

(** The sensors, numbered from [i], whose [init()] returns 0 and for which
    an IPA is created. *)
Definition ok_sensors (env : MatchEnv) (i : nat) (sensors : list nat) : list nat :=
  map snd (filter (fun p => (sensor_init_ret env (fst p) =? 0) && createIPA_ok env (fst p))
                  (combine (seq i (length sensors)) sensors)).

(** ** Concrete states *)

Definition empty_st : St :=
  mkSt 0 [] [] [] [] [] [] [] [] [] false 0 0 [] false false false.

(** [allocateBuffers] with the default [bufferCount] of 4, then [start]. *)
Definition demo_started : St :=
  snd (start 0 0 0 (snd (allocateBuffers 4 0 0 0 empty_st))).

Definition demo_request (r : nat) : Request := mkRequest r true.

(** The parts of the state that [allocateBuffers] acquires. *)
Definition buffer_state (s : St) :=
  (paramPool_ s, statPool_ s, paramBuffers_ s, statBuffers_ s, ipaBuffers_ s,
   video_bufs s, param_bufs s, stat_bufs s).

Definition alloc_free (bufferCount : Z) (s : St) : St :=
  snd (freeBuffers (snd (allocateBuffers bufferCount 0 0 0 s))).

(** Two Requests queued after [demo_started]. *)
Definition demo_queued2 : St :=
  snd (queueRequest (demo_request 1) (snd (queueRequest (demo_request 0) demo_started))).

Definition demo_info1 : RkISP1FrameInfo :=
  mkFrameInfo 1 (demo_request 1) (ParamBuf 1) (StatBuf 1) (VideoBuf 1)
    false false false.

(** A 2592x1944 raw sensor that answers every format request with its full
    resolution. *)
Definition demo_sensor : CameraSensor :=
  mkSensor (fun _ _ => mkSubdevFmt MEDIA_BUS_FMT_SBGGR10_1X10 (mkSize 2592 1944))
           (mkSize 2592 1944).

(** A sensor that reports 0x0 for everything. *)
Definition null_sensor : CameraSensor :=
  mkSensor (fun _ _ => mkSubdevFmt 0 (mkSize 0 0)) (mkSize 0 0).

(** Two stream configurations, the first with a 0 height. *)
Definition demo_config : RkISP1CameraConfiguration :=
  mkConfig [mkStreamCfg V4L2_PIX_FMT_YUYV (mkSize 8000 0) 2;
            mkStreamCfg V4L2_PIX_FMT_NV12 (mkSize 640 480) 2]
           (mkSubdevFmt 0 (mkSize 0 0)).

(** What [validate] makes of [demo_config] with [demo_sensor]. *)
Definition demo_adjusted : RkISP1CameraConfiguration :=
  mkConfig [mkStreamCfg V4L2_PIX_FMT_YUYV (mkSize 1280 960) RKISP1_BUFFER_COUNT]
           (mkSubdevFmt MEDIA_BUS_FMT_SBGGR10_1X10 (mkSize 2592 1944)).

(** Devices that accept every call and format. *)
Definition demo_env : ConfigureEnv :=
  mkConfigureEnv (fun _ => 0) (fun f => (0, f)) (fun f => (0, f))
    (0, mkSubdevFmt MEDIA_BUS_FMT_SBGGR10_1X10 (mkSize 2592 1944))
    (fun _ f => (0, f)) (fun f => (0, f)) (fun f => (0, f)) (fun f => (0, f)).

(** Two sensors on the CSI-2 receiver; the one of entity 2 is linked. *)
Definition demo_links : list MediaLink := [mkLink 1 false; mkLink 2 true].

(** The calls [configure] makes for the camera of sensor 1. *)
Definition demo_calls : list ConfCall :=
  let sf := mkSubdevFmt MEDIA_BUS_FMT_SBGGR10_1X10 (mkSize 2592 1944) in
  [CSetLink 1 true; CSetLink 2 false; CSensorSetFormat sf; CDphySetFormat 0 sf;
   CDphyGetFormat 1; CIspSetFormat 0 sf;
   CIspSetFormat 2 (mkSubdevFmt MEDIA_BUS_FMT_YUYV8_2X8 (mkSize 2592 1944));
   CVideoSetFormat (mkDevFmt V4L2_PIX_FMT_YUYV (mkSize 1280 960) 2);
   CParamSetFormat (mkDevFmt V4L2_META_FMT_RK_ISP1_PARAMS (mkSize 0 0) 0);
   CStatSetFormat (mkDevFmt V4L2_META_FMT_RK_ISP1_STAT_3A (mkSize 0 0) 0)].

(** * Properties *)

(** ** Frame-preserving facts about the operations *)

Lemma destroy_completed fr s : completed (snd (destroy fr s)) = completed s.
Proof. unfold destroy; destruct (find_frame fr s); reflexivity. Qed.

Lemma destroy_frame_ fr s : frame_ (snd (destroy fr s)) = frame_ s.
Proof. unfold destroy; destruct (find_frame fr s); reflexivity. Qed.

Lemma tryCompleteRequest_frame_ r s : frame_ (tryCompleteRequest r s) = frame_ s.
Proof.
  unfold tryCompleteRequest.
  destruct (find_request r s) as [[k info]|]; [|reflexivity].
  destruct (hasPendingBuffers r s), (metadataProcessed info), (paramDequeued info);
    simpl; try reflexivity; rewrite destroy_frame_; reflexivity.
Qed.

Lemma dev_queueBuffer_devcalls d b s :
  devcalls (dev_queueBuffer d b s) = devcalls s ++ [QueueBuffer d b].
Proof. unfold dev_queueBuffer; destruct existsb; reflexivity. Qed.

(** ** C1 *)

(** C1: for a Request whose FrameInfo the lookup finds, [tryCompleteRequest]
    completes it exactly when it has no pending buffer, [metadataProcessed]
    and [paramDequeued] hold; it then calls [completeRequest] and afterwards
    destroys the frame's entry; otherwise the state is unchanged. *)
Theorem tryCompleteRequest_gate (r : nat) (s : St) (k : Z)
    (info : RkISP1FrameInfo) (Hfind : find_request r s = Some (k, info)) :
  (negb (hasPendingBuffers r s) && metadataProcessed info
     && paramDequeued info = true ->
   tryCompleteRequest r s = snd (destroy (frame info) (completeRequest r s))
   /\ completed (tryCompleteRequest r s) = completed s ++ [r])
  /\ (negb (hasPendingBuffers r s) && metadataProcessed info
        && paramDequeued info = false ->
      tryCompleteRequest r s = s).
Proof.
  unfold tryCompleteRequest; rewrite Hfind.
  destruct (hasPendingBuffers r s), (metadataProcessed info), (paramDequeued info);
    simpl; split; intro H; try discriminate; try reflexivity.
  split; [reflexivity|]. rewrite destroy_completed. reflexivity.
Qed.

Definition demo_queued : St := snd (queueRequest (demo_request 0) demo_started).

Definition demo_info0 : RkISP1FrameInfo :=
  mkFrameInfo 0 (demo_request 0) (ParamBuf 0) (StatBuf 0) (VideoBuf 0)
    false false false.

Lemma tryCompleteRequest_gate_witness :
  find_request 0 demo_queued = Some (0, demo_info0) /\
  ((negb (hasPendingBuffers 0 demo_queued) && metadataProcessed demo_info0
      && paramDequeued demo_info0 = true ->
    tryCompleteRequest 0 demo_queued
      = snd (destroy (frame demo_info0) (completeRequest 0 demo_queued))
    /\ completed (tryCompleteRequest 0 demo_queued) = completed demo_queued ++ [0%nat])
   /\ (negb (hasPendingBuffers 0 demo_queued) && metadataProcessed demo_info0
         && paramDequeued demo_info0 = false ->
       tryCompleteRequest 0 demo_queued = demo_queued)).
Proof.
  split; [vm_compute; reflexivity|].
  apply (tryCompleteRequest_gate 0 demo_queued 0 demo_info0); vm_compute; reflexivity.
Defined.

(** ** C5 *)

(** C5: when no live FrameInfo holds the buffer, [find(Buffer)] gives
    [nullptr]; [statReady] then drops the event, but [paramReady]
    dereferences the null pointer (modelled as the abort [None]). *)
Theorem paramReady_unknown_buffer (b : Buffer) (s : St)
    (Hnone : find_buffer b s = None) :
  paramReady b s = None /\ statReady b s = s.
Proof. unfold paramReady, statReady; rewrite Hnone; split; reflexivity. Qed.

Lemma paramReady_unknown_buffer_witness :
  find_buffer (ParamBuf 0) demo_started = None /\
  paramReady (ParamBuf 0) demo_started = None /\
  statReady (ParamBuf 0) demo_started = demo_started.
Proof.
  split; [vm_compute; reflexivity|].
  apply paramReady_unknown_buffer; vm_compute; reflexivity.
Defined.

(** ** C6 *)

(** C6: when the params and statistics devices stream on but the image
    device fails, [start] streams the two others off yet goes on: it records
    the active camera, configures the IPA and returns the error. *)
Theorem start_video_failure_continues (s : St) (ret : Z) (Hret : ret <> 0) :
  fst (start 0 0 ret s) = ret
  /\ activeCamera_ (snd (start 0 0 ret s)) = true
  /\ ipacalls (snd (start 0 0 ret s)) = ipacalls s ++ [Configure]
  /\ devcalls (snd (start 0 0 ret s))
     = devcalls s ++ [StreamOn ParamDev; StreamOn StatDev; StreamOn VideoDev;
                      StreamOff ParamDev; StreamOff StatDev].
Proof.
  unfold start; simpl.
  destruct (ret =? 0) eqn:E; [apply Z.eqb_eq in E; contradiction|].
  simpl. repeat split; try reflexivity.
  rewrite <- !app_assoc. reflexivity.
Qed.

Lemma start_video_failure_continues_witness :
  (-5 <> 0) /\
  fst (start 0 0 (-5) empty_st) = -5
  /\ activeCamera_ (snd (start 0 0 (-5) empty_st)) = true
  /\ ipacalls (snd (start 0 0 (-5) empty_st)) = ipacalls empty_st ++ [Configure]
  /\ devcalls (snd (start 0 0 (-5) empty_st))
     = devcalls empty_st ++ [StreamOn ParamDev; StreamOn StatDev; StreamOn VideoDev;
                             StreamOff ParamDev; StreamOff StatDev].
Proof. split; [lia | apply start_video_failure_continues; lia]. Defined.

(** ** C7 *)

(** C7: a failing [queueRequest] returns [-ENOENT] and leaves the state as
    it was: frame counter, free queues, FrameTable, IPA events and timeline. *)
Theorem queueRequest_failure_no_side_effect (rq : Request) (s : St)
    (Hfail : fst (queueRequest rq s) <> 0) :
  fst (queueRequest rq s) = - ENOENT /\ snd (queueRequest rq s) = s.
Proof.
  unfold queueRequest in *.
  destruct (create (frame_ s) rq s) as [[info s1]|]; simpl in *.
  - contradiction.
  - split; reflexivity.
Qed.

Lemma queueRequest_failure_no_side_effect_witness :
  fst (queueRequest (mkRequest 0 false) demo_started) <> 0 /\
  fst (queueRequest (mkRequest 0 false) demo_started) = - ENOENT /\
  snd (queueRequest (mkRequest 0 false) demo_started) = demo_started.
Proof.
  split; [vm_compute; discriminate|].
  apply queueRequest_failure_no_side_effect; vm_compute; discriminate.
Defined.

(** ** C8 *)

(** C8: for a known frame, the QueueBuffers action queues the parameters
    buffer only when [paramFilled], then the statistics buffer, then the
    image buffer. *)
Theorem queueBuffers_run_order (fr : Z) (s : St) (info : RkISP1FrameInfo)
    (Hfind : find_frame fr s = Some info) :
  exists s', queueBuffers_run fr s = Some s'
    /\ devcalls s' = devcalls s
         ++ (if paramFilled info then [QueueBuffer ParamDev (paramBuffer info)] else [])
         ++ [QueueBuffer StatDev (statBuffer info);
             QueueBuffer VideoDev (videoBuffer info)].
Proof.
  unfold queueBuffers_run; rewrite Hfind.
  eexists; split; [reflexivity|].
  rewrite !dev_queueBuffer_devcalls.
  destruct (paramFilled info); [rewrite dev_queueBuffer_devcalls|];
    rewrite <- !app_assoc; reflexivity.
Qed.

Lemma queueBuffers_run_order_witness :
  find_frame 0 demo_queued = Some demo_info0 /\
  exists s', queueBuffers_run 0 demo_queued = Some s'
    /\ devcalls s' = devcalls demo_queued
         ++ (if paramFilled demo_info0
             then [QueueBuffer ParamDev (paramBuffer demo_info0)] else [])
         ++ [QueueBuffer StatDev (statBuffer demo_info0);
             QueueBuffer VideoDev (videoBuffer demo_info0)].
Proof.
  split; [vm_compute; reflexivity|].
  apply queueBuffers_run_order; vm_compute; reflexivity.
Defined.

(** ** C9 *)

Lemma completeBuffer_frame_ r s : frame_ (completeBuffer r s) = frame_ s.
Proof. reflexivity. Qed.

(** C9, as stated: the new counter is [max(frame_, sequence + 1)]. It fails
    for the last [unsigned int] sequence, where [sequence + 1] wraps to 0. *)
Lemma bufferReady_frame_counter_wraps :
  ~ (forall b sq s s', 0 <= frame_ s < 2 ^ 32 -> 0 <= sq < 2 ^ 32 ->
       bufferReady b sq s = Some s' ->
       frame_ s' = Z.max (frame_ s) (sq + 1) /\ frame_ s <= frame_ s').
Proof.
  intro H.
  destruct (H (VideoBuf 0) (2 ^ 32 - 1) (set_frame 5 demo_started)
              (tryCompleteRequest 0 (completeBuffer 0 (set_frame 0 demo_started))))
    as [H1 _].
  - simpl; lia.
  - lia.
  - vm_compute; reflexivity.
  - vm_compute in H1; discriminate.
Qed.

(** C9, amended: an image completion sets the counter to [sequence + 1]
    when [frame_ <= sequence] and leaves it unchanged otherwise; below the
    last sequence value this is [max(frame_, sequence + 1)], so the counter
    never decreases; at sequence [2^32 - 1] it wraps to 0. *)
Theorem bufferReady_frame_counter (b : Buffer) (sq : Z) (s s' : St)
    (Hf : 0 <= frame_ s < 2 ^ 32) (Hq : 0 <= sq < 2 ^ 32)
    (H : bufferReady b sq s = Some s') :
  (sq < 2 ^ 32 - 1 -> frame_ s' = Z.max (frame_ s) (sq + 1)
                      /\ frame_ s <= frame_ s')
  /\ (sq = 2 ^ 32 - 1 -> frame_ s' = 0).
Proof.
  destruct b as [i|i|r]; simpl in H; try discriminate.
  injection H as <-.
  rewrite tryCompleteRequest_frame_, completeBuffer_frame_.
  destruct (frame_ s <=? sq) eqn:E; simpl; unfold u32.
  - apply Z.leb_le in E. split; intro Hs.
    + rewrite Z.mod_small by lia. lia.
    + subst sq. reflexivity.
  - apply Z.leb_gt in E. split; intro Hs; lia.
Qed.

Lemma bufferReady_frame_counter_witness :
  let s' := tryCompleteRequest 0 (completeBuffer 0 (set_frame 4 demo_started)) in
  (0 <= frame_ demo_started < 2 ^ 32) /\ (0 <= 3 < 2 ^ 32) /\
  bufferReady (VideoBuf 0) 3 demo_started = Some s' /\
  ((3 < 2 ^ 32 - 1 -> frame_ s' = Z.max (frame_ demo_started) (3 + 1)
                      /\ frame_ demo_started <= frame_ s')
   /\ (3 = 2 ^ 32 - 1 -> frame_ s' = 0)).
Proof.
  intro s'.
  assert (Hf : 0 <= frame_ demo_started < 2 ^ 32)
    by (change (frame_ demo_started) with 0; lia).
  assert (Hq : 0 <= 3 < 2 ^ 32) by lia.
  assert (Hb : bufferReady (VideoBuf 0) 3 demo_started = Some s')
    by (vm_compute; reflexivity).
  split; [exact Hf|]. split; [exact Hq|]. split; [exact Hb|].
  exact (bufferReady_frame_counter (VideoBuf 0) 3 demo_started s' Hf Hq Hb).
Defined.

(** ** C10 *)

(** C10, as stated: [allocateBuffers] then [freeBuffers] gives back the
    pre-allocation buffer state. It does not: the two [BufferPool]s keep
    the [bufferCount + 1] entries [createBuffers] made. *)
Lemma alloc_free_pools_remain :
  ~ (forall n s, buffer_state s = buffer_state empty_st ->
       buffer_state (alloc_free n s) = buffer_state s).
Proof.
  intro H. specialize (H 4 empty_st eq_refl).
  vm_compute in H. discriminate.
Qed.

(** C10, amended: after a successful [allocateBuffers] and [freeBuffers]
    both free queues are empty, the IPA buffer list is cleared, the ids
    handed to [mapBuffers] are exactly those given to [unmapBuffers], and
    the three devices' buffers are released; [paramPool_] and [statPool_]
    still count the [bufferCount + 1] buffers [createBuffers] made, a sum
    taken in unsigned arithmetic: 0 when [bufferCount] is 2^32 - 1. *)
Theorem alloc_free_roundtrip (bufferCount : Z) (s : St) :
  0 <= bufferCount < 2 ^ 32 ->
  let n := Z.to_nat (u32 (bufferCount + 1)) in
  let ids := ipaBuffers_ s
             ++ map (Z.lor RKISP1_PARAM_BASE) (slots n)
             ++ map (Z.lor RKISP1_STAT_BASE) (slots n) in
  let s2 := alloc_free bufferCount s in
  paramBuffers_ s2 = [] /\ statBuffers_ s2 = [] /\ ipaBuffers_ s2 = []
  /\ ipacalls s2 = ipacalls s ++ [MapBuffers ids; UnmapBuffers ids]
  /\ video_bufs s2 = false /\ param_bufs s2 = false /\ stat_bufs s2 = false
  /\ paramPool_ s2 = n /\ statPool_ s2 = n
  /\ (bufferCount < 2 ^ 32 - 1 -> n = S (Z.to_nat bufferCount))
  /\ (bufferCount = 2 ^ 32 - 1 -> n = 0%nat).
Proof.
  intros Hb n ids s2. subst s2 ids.
  unfold alloc_free, allocateBuffers, freeBuffers. cbn -[slots map Z.lor app u32 Z.to_nat].
  repeat split; try reflexivity.
  - rewrite <- !app_assoc. reflexivity.
  - intro Hlt. subst n. unfold u32. rewrite Z.mod_small by lia. lia.
  - intros ->. reflexivity.
Qed.

Lemma alloc_free_roundtrip_witness :
  (0 <= 4 < 2 ^ 32 /\ paramPool_ (alloc_free 4 empty_st) = 5%nat)
  /\ (0 <= 2 ^ 32 - 1 < 2 ^ 32 /\ paramPool_ (alloc_free (2 ^ 32 - 1) empty_st) = 0%nat).
Proof.
  assert (H1 : 0 <= 4 < 2 ^ 32) by lia.
  assert (H2 : 0 <= 2 ^ 32 - 1 < 2 ^ 32) by lia.
  split; split; try assumption.
  - exact (proj1 (proj2 (proj2 (proj2 (proj2 (proj2 (proj2 (proj2
             (alloc_free_roundtrip 4 empty_st H1))))))))).
  - exact (proj1 (proj2 (proj2 (proj2 (proj2 (proj2 (proj2 (proj2
             (alloc_free_roundtrip (2 ^ 32 - 1) empty_st H2))))))))).
Defined.

(** ** The FrameTable as a sorted map *)

Section SortedMap.
Context {A : Type}.
Implicit Types (k : Z) (v : A) (m t : list (Z * A)) (x p : Z * A).

Definition key_lt (x y : Z * A) : Prop := fst x < fst y.
Definition key_neq (k : Z) (p : Z * A) : bool := negb (fst p =? k).
Definition keys_sorted (m : list (Z * A)) : Prop := StronglySorted key_lt m.

Lemma In_map_set k v m x : In x (map_set k v m) -> x = (k, v) \/ In x m.
Proof.
  induction m as [|[k' v'] t IH]; simpl; [intuition|].
  destruct (k <? k'); [simpl; intuition|].
  destruct (k =? k'); simpl; [intuition|].
  intros [H|H]; [right; left; exact H|]. destruct (IH H); intuition.
Qed.

Lemma map_find_In k v m : map_find k m = Some v -> In (k, v) m.
Proof.
  induction m as [|[k' v'] t IH]; simpl; [discriminate|].
  destruct (k =? k') eqn:E; [|intuition].
  apply Z.eqb_eq in E; subst. intros [= <-]. left; reflexivity.
Qed.

Lemma Forall_key_gt_filter k m :
  Forall (fun p => k < fst p) m -> filter (key_neq k) m = m.
Proof.
  induction m as [|[k' v'] t IH]; simpl; [reflexivity|].
  intros H; inversion H as [|? ? H1 H2]; subst. unfold key_neq at 1; simpl in *.
  destruct (k' =? k) eqn:E; [apply Z.eqb_eq in E; lia|]. simpl; f_equal; auto.
Qed.

Lemma keys_sorted_In_lt k v t x :
  keys_sorted ((k, v) :: t) -> In x t -> k < fst x.
Proof.
  intros H Hx. inversion H as [|? ? _ HF]; subst.
  rewrite Forall_forall in HF. exact (HF x Hx).
Qed.

Lemma map_set_sorted k v m : keys_sorted m -> keys_sorted (map_set k v m).
Proof.
  unfold keys_sorted.
  induction m as [|[k' v'] t IH]; simpl; intro H.
  - constructor; constructor.
  - inversion H as [|? ? Ht HF]; subst.
    destruct (k <? k') eqn:E1.
    + apply Z.ltb_lt in E1. constructor; [exact H|].
      constructor; [exact E1|].
      eapply Forall_impl; [|exact HF]. unfold key_lt; simpl; intros; lia.
    + destruct (k =? k') eqn:E2.
      * apply Z.eqb_eq in E2; subst. constructor; [exact Ht|exact HF].
      * apply Z.ltb_ge in E1. apply Z.eqb_neq in E2.
        constructor; [apply IH, Ht|].
        apply Forall_forall. intros x Hx. apply In_map_set in Hx as [->|Hx].
        -- unfold key_lt; simpl; lia.
        -- rewrite Forall_forall in HF. exact (HF x Hx).
Qed.

Lemma filter_sorted f m : keys_sorted m -> keys_sorted (filter f m).
Proof.
  unfold keys_sorted.
  induction m as [|p t IH]; simpl; intro H; [constructor|].
  inversion H as [|? ? Ht HF]; subst.
  destruct (f p); [|auto]. constructor; [auto|].
  rewrite Forall_forall in *. intros x Hx. apply filter_In in Hx. apply HF, Hx.
Qed.

Lemma map_set_perm k v m :
  keys_sorted m ->
  Permutation (map_set k v m) ((k, v) :: filter (key_neq k) m).
Proof.
  induction m as [|[k' v'] t IH]; cbn [map_set]; intro H; [reflexivity|].
  inversion H as [|? ? Ht HF]; subst.
  destruct (k <? k') eqn:E1.
  - apply Z.ltb_lt in E1.
    rewrite (Forall_key_gt_filter k ((k', v') :: t)); [reflexivity|].
    constructor; [exact E1|].
    eapply Forall_impl; [|exact HF]. unfold key_lt; simpl; intros; lia.
  - cbn [filter]. unfold key_neq at 1. cbn [fst].
    destruct (k =? k') eqn:E2.
    + apply Z.eqb_eq in E2; subst. rewrite Z.eqb_refl; cbn [negb].
      rewrite Forall_key_gt_filter; [reflexivity|].
      eapply Forall_impl; [|exact HF]. unfold key_lt; simpl; intros; lia.
    + rewrite Z.eqb_sym, E2; cbn [negb].
      eapply perm_trans; [apply perm_skip, IH, Ht|]. apply perm_swap.
Qed.

Lemma map_erase_filter k m :
  keys_sorted m -> map_erase k m = filter (key_neq k) m.
Proof.
  induction m as [|[k' v'] t IH]; cbn [map_erase filter]; intro H; [reflexivity|].
  inversion H as [|? ? Ht HF]; subst.
  unfold key_neq at 1; cbn [fst]. rewrite (Z.eqb_sym k' k).
  destruct (k =? k') eqn:E; cbn [negb].
  - apply Z.eqb_eq in E; subst. symmetry. apply Forall_key_gt_filter.
    eapply Forall_impl; [|exact HF]. unfold key_lt; simpl; intros; lia.
  - f_equal; auto.
Qed.

Lemma In_map_find k v m : keys_sorted m -> In (k, v) m -> map_find k m = Some v.
Proof.
  induction m as [|[k' v'] t IH]; simpl; intros H Hin; [contradiction|].
  inversion H as [|? ? Ht HF]; subst.
  destruct Hin as [[= <- <-]|Hin]; [rewrite Z.eqb_refl; reflexivity|].
  pose proof (keys_sorted_In_lt _ _ _ _ H Hin) as Hlt; simpl in Hlt.
  destruct (k =? k') eqn:E; [apply Z.eqb_eq in E; lia|]. auto.
Qed.

Lemma map_set_In_same k v m : keys_sorted m -> In (k, v) m -> map_set k v m = m.
Proof.
  induction m as [|[k' v'] t IH]; simpl; intros H Hin; [contradiction|].
  inversion H as [|? ? Ht HF]; subst.
  destruct Hin as [[= <- <-]|Hin].
  - rewrite Z.ltb_irrefl, Z.eqb_refl. reflexivity.
  - pose proof (keys_sorted_In_lt _ _ _ _ H Hin) as Hlt; simpl in Hlt.
    destruct (k <? k') eqn:E1; [apply Z.ltb_lt in E1; lia|].
    destruct (k =? k') eqn:E2; [apply Z.eqb_eq in E2; lia|].
    f_equal; auto.
Qed.

Lemma perm_of_In k v m :
  keys_sorted m -> In (k, v) m -> Permutation m ((k, v) :: filter (key_neq k) m).
Proof.
  intros H Hin. rewrite <- (map_set_In_same k v m H Hin) at 1.
  apply map_set_perm, H.
Qed.

Lemma NoDup_map_filter {B} (f : Z * A -> B) g m :
  NoDup (map f m) -> NoDup (map f (filter g m)).
Proof.
  induction m as [|p t IH]; simpl; intro H; [constructor|].
  inversion H as [|? ? Hn Hd]; subst.
  destruct (g p); simpl; [|auto].
  constructor; [|auto]. intro Hin. apply Hn.
  apply in_map_iff in Hin as (x & Hx & Hx'). apply filter_In in Hx' as [Hx' _].
  apply in_map_iff. eauto.
Qed.

End SortedMap.

(** ** Lookups *)

Lemma find_request_in_Some r m k info :
  find_request_in r m = Some (k, info) -> In (k, info) m /\ rq_id (request info) = r.
Proof.
  induction m as [|[k' i'] t IH]; simpl; [discriminate|].
  destruct (Nat.eqb (rq_id (request i')) r) eqn:E.
  - intros [= <- <-]. apply Nat.eqb_eq in E. auto.
  - intro H. destruct (IH H). auto.
Qed.

Lemma find_request_in_None r m :
  find_request_in r m = None ->
  forall k info, In (k, info) m -> rq_id (request info) <> r.
Proof.
  induction m as [|[k' i'] t IH]; simpl; [contradiction|].
  destruct (Nat.eqb (rq_id (request i')) r) eqn:E; [discriminate|].
  intros H k info [[= <- <-]|Hin].
  - apply Nat.eqb_neq in E; exact E.
  - eapply IH; eauto.
Qed.

Lemma find_buffer_in_Some b m k info :
  find_buffer_in b m = Some (k, info) ->
  In (k, info) m
  /\ (paramBuffer info = b \/ statBuffer info = b \/ videoBuffer info = b).
Proof.
  induction m as [|[k' i'] t IH]; simpl; [discriminate|].
  destruct (buffer_eqb (paramBuffer i') b) eqn:E1;
  [|destruct (buffer_eqb (statBuffer i') b) eqn:E2;
    [|destruct (buffer_eqb (videoBuffer i') b) eqn:E3]]; simpl.
  all: try (intros [= <- <-]; split; [left; reflexivity|]).
  all: unfold buffer_eqb in *;
       try match goal with
           | E : (if Buffer_eq_dec ?x ?y then true else false) = true |- _ =>
               destruct (Buffer_eq_dec x y); [|discriminate]
           end; auto.
  intro H. destruct (IH H). auto.
Qed.

(** ** The FrameTable invariant *)

Definition req_of (p : Z * RkISP1FrameInfo) : nat := rq_id (request (snd p)).

(** Keys sorted, each entry stored under its own frame number, one entry per
    Request, and no live entry for a Request already completed; no Request
    completed twice. *)
Definition inv_table (m : list (Z * RkISP1FrameInfo)) (c : list nat) : Prop :=
  keys_sorted m
  /\ (forall k info, In (k, info) m -> frame info = k)
  /\ NoDup (map req_of m)
  /\ (forall k info, In (k, info) m -> ~ In (rq_id (request info)) c)
  /\ NoDup c.

Lemma inv_table_update m c k info info' :
  inv_table m c -> In (k, info) m ->
  request info' = request info -> frame info' = frame info ->
  inv_table (map_set k info' m) c.
Proof.
  intros (Hs & Hf & Hn & Hc & Hd) Hin Hr Hfr.
  pose proof (perm_of_In k info m Hs Hin) as Hp.
  pose proof (map_set_perm k info' m Hs) as Hp'.
  split; [apply map_set_sorted, Hs|]. split; [|split; [|split]].
  - intros k' i' H. apply In_map_set in H as [[= <- <-]|H]; [|eauto].
    rewrite Hfr. eauto.
  - eapply Permutation_NoDup; [symmetry; apply Permutation_map, Hp'|].
    eapply Permutation_NoDup in Hn; [|apply Permutation_map, Hp].
    simpl in *. unfold req_of at 1 in Hn. unfold req_of at 1. simpl in *.
    rewrite Hr. exact Hn.
  - intros k' i' H. apply In_map_set in H as [[= <- <-]|H]; [|eauto].
    rewrite Hr. eauto.
  - exact Hd.
Qed.

Lemma inv_table_erase m c k info :
  inv_table m c -> In (k, info) m ->
  inv_table (filter (key_neq k) m) (c ++ [rq_id (request info)]).
Proof.
  intros (Hs & Hf & Hn & Hc & Hd) Hin.
  pose proof (perm_of_In k info m Hs Hin) as Hp.
  eapply Permutation_NoDup in Hn as Hn'; [|apply Permutation_map, Hp].
  simpl in Hn'. inversion Hn' as [|? ? Hnot HnF]; subst.
  split; [apply filter_sorted, Hs|]. split; [|split; [|split]].
  - intros k' i' H. apply filter_In in H as [H _]. eauto.
  - exact HnF.
  - intros k' i' H Hin'. apply in_app_or in Hin' as [Hin'|[Heq|[]]].
    + apply filter_In in H as [H _]. exact (Hc _ _ H Hin').
    + apply Hnot. apply in_map_iff. exists (k', i'). unfold req_of; simpl. auto.
  - eapply Permutation_NoDup; [apply Permutation_cons_append|].
    constructor; [exact (Hc _ _ Hin)|exact Hd].
Qed.

Lemma inv_table_insert m c fr info :
  inv_table m c ->
  (forall k i, In (k, i) m -> rq_id (request i) <> rq_id (request info)) ->
  ~ In (rq_id (request info)) c -> frame info = fr ->
  inv_table (map_set fr info m) c.
Proof.
  intros (Hs & Hf & Hn & Hc & Hd) Hfresh Hnc Hfr.
  pose proof (map_set_perm fr info m Hs) as Hp'.
  split; [apply map_set_sorted, Hs|]. split; [|split; [|split]].
  - intros k' i' H. apply In_map_set in H as [[= <- <-]|H]; eauto.
  - eapply Permutation_NoDup; [symmetry; apply Permutation_map, Hp'|].
    simpl. constructor; [|apply NoDup_map_filter, Hn].
    intro H. apply in_map_iff in H as ([k i] & Heq & H).
    apply filter_In in H as [H _]. exact (Hfresh k i H Heq).
  - intros k' i' H. apply In_map_set in H as [[= <- <-]|H]; eauto.
  - exact Hd.
Qed.

Definition inv3 (s : St) : Prop := inv_table (frameInfo_ s) (completed s).

Lemma inv3_ext s s' :
  frameInfo_ s' = frameInfo_ s -> completed s' = completed s -> inv3 s -> inv3 s'.
Proof. unfold inv3; intros -> ->; auto. Qed.

Lemma inv3_tryComplete r s : inv3 s -> inv3 (tryCompleteRequest r s).
Proof.
  intro H. unfold tryCompleteRequest.
  destruct (find_request r s) as [[k info]|] eqn:Hf; [|exact H].
  apply find_request_in_Some in Hf as [Hin Hr].
  destruct (hasPendingBuffers r s), (metadataProcessed info), (paramDequeued info);
    simpl; try exact H.
  pose proof H as (Hs & Hfr & _).
  assert (Hk : frame info = k) by eauto. rewrite Hk.
  unfold destroy, find_frame.
  change (frameInfo_ (completeRequest r s)) with (frameInfo_ s).
  rewrite (In_map_find k info _ Hs Hin).
  unfold inv3; simpl. rewrite map_erase_filter by exact Hs.
  rewrite <- Hr, Hk. apply inv_table_erase; assumption.
Qed.

Lemma inv3_update k info info' s :
  inv3 s -> In (k, info) (frameInfo_ s) ->
  request info' = request info -> frame info' = frame info ->
  inv3 (update_info k info' s).
Proof. intros; unfold inv3, update_info; simpl; eapply inv_table_update; eauto. Qed.

Lemma dev_queueBuffer_tables d b s :
  frameInfo_ (dev_queueBuffer d b s) = frameInfo_ s
  /\ completed (dev_queueBuffer d b s) = completed s.
Proof. unfold dev_queueBuffer; destruct existsb; split; reflexivity. Qed.

Lemma queueBuffers_run_tables fr s s' :
  queueBuffers_run fr s = Some s' ->
  frameInfo_ s' = frameInfo_ s /\ completed s' = completed s
  /\ timeline_ s' = timeline_ s /\ paramBuffers_ s' = paramBuffers_ s.
Proof.
  unfold queueBuffers_run. destruct (find_frame fr s) as [info|]; [|discriminate].
  intros [= <-]. unfold dev_queueBuffer.
  destruct (paramFilled info); repeat (destruct existsb); repeat split; reflexivity.
Qed.

Lemma start_tables pr sr vr s :
  frameInfo_ (snd (start pr sr vr s)) = frameInfo_ s
  /\ completed (snd (start pr sr vr s)) = completed s
  /\ paramBuffers_ (snd (start pr sr vr s)) = paramBuffers_ s
  /\ statBuffers_ (snd (start pr sr vr s)) = statBuffers_ s
  /\ kq (snd (start pr sr vr s)) = kq s
  /\ timeline_ (snd (start pr sr vr s)) = timeline_ s.
Proof.
  unfold start. destruct (pr =? 0), (sr =? 0), (vr =? 0); repeat split; reflexivity.
Qed.

Lemma dequeue_tables d b s s1 :
  dequeue d b s = Some s1 ->
  s1 = set_kq (remove_one (d, b) (kq s)) s.
Proof. unfold dequeue; destruct existsb; [intros [= <-]; reflexivity|discriminate]. Qed.

Lemma inv3_paramReady b s s' : inv3 s -> paramReady b s = Some s' -> inv3 s'.
Proof.
  unfold paramReady. intro H.
  destruct (find_buffer b s) as [[k info]|] eqn:Hf; [|discriminate].
  intros [= <-]. apply find_buffer_in_Some in Hf as [Hin _].
  apply inv3_tryComplete. eapply inv3_update; eauto.
Qed.

Lemma inv3_metadataReady fr s : inv3 s -> inv3 (metadataReady fr s).
Proof.
  unfold metadataReady. intro H.
  destruct (find_frame fr s) as [info|] eqn:Hf; [|exact H].
  apply map_find_In in Hf.
  apply inv3_tryComplete. eapply inv3_update; eauto.
Qed.

Lemma inv3_queueFrameAction fr op s : inv3 s -> inv3 (queueFrameAction fr op s).
Proof.
  intro H. destruct op; simpl.
  - exact H.
  - destruct (find_frame fr s) as [info|] eqn:Hf; [|exact H].
    apply map_find_In in Hf. eapply inv3_update; eauto.
  - apply inv3_metadataReady, H.
  - exact H.
Qed.

Lemma inv3_bufferReady b sq s s' : inv3 s -> bufferReady b sq s = Some s' -> inv3 s'.
Proof.
  intro H. destruct b; simpl; try discriminate. intros [= <-].
  apply inv3_tryComplete.
  destruct (frame_ s <=? sq); exact H.
Qed.

Lemma inv3_queueRequest rq s :
  inv3 s -> ~ In (rq_id rq) (completed s) -> find_request (rq_id rq) s = None ->
  inv3 (snd (queueRequest rq s)).
Proof.
  intros H Hc Hf. unfold queueRequest, create.
  destruct (paramBuffers_ s) as [|pb pq]; [exact H|].
  destruct (statBuffers_ s) as [|sb sq]; [exact H|].
  destruct (findBuffer rq) as [vb|]; [|exact H].
  unfold inv3; simpl.
  apply inv_table_insert; simpl; try reflexivity; try exact H; try exact Hc.
  intros k i Hin. exact (find_request_in_None _ _ Hf k i Hin).
Qed.

Lemma fresh_request_spec r s :
  fresh_request r s = true -> ~ In r (completed s) /\ find_request r s = None.
Proof.
  unfold fresh_request. intro H. apply andb_prop in H as [H1 H2].
  split.
  - intro Hin. apply negb_true_iff in H1.
    assert (existsb (Nat.eqb r) (completed s) = true) as Hx
      by (apply existsb_exists; exists r; split; [exact Hin|apply Nat.eqb_refl]).
    congruence.
  - destruct (find_request r s); [discriminate|reflexivity].
Qed.

Lemma inv3_step s e s' : inv3 s -> step s e = Some s' -> inv3 s'.
Proof.
  intros H Hs. unfold step in Hs.
  destruct e as [rq|i|fr op|b|b|b sq| |pr sr vr].
  8: { destruct (activeCamera_ s); [discriminate|].
       injection Hs as <-. destruct (start_tables pr sr vr s) as (H1 & H2 & _).
       eapply inv3_ext; eauto. }
  7: { destruct (activeCamera_ s); [|discriminate].
       injection Hs as <-. exact H. }
  all: destruct (activeCamera_ s); [|discriminate]; cbn beta iota delta [negb] in Hs.
  - destruct (fresh_request (rq_id rq) s) eqn:Hfr; [|discriminate].
    injection Hs as <-. apply fresh_request_spec in Hfr as [Hc Hf].
    destruct (rq_has_buffer rq); apply inv3_queueRequest; assumption.
  - destruct (nth_error (timeline_ s) i) as [a|]; [|discriminate].
    destruct (act_type a).
    1,2: injection Hs as <-; exact H.
    destruct (queueBuffers_run_tables _ _ _ Hs) as (H1 & H2 & _).
    eapply inv3_ext; eauto.
  - injection Hs as <-. apply inv3_queueFrameAction, H.
  - destruct (dequeue ParamDev b s) as [s1|] eqn:Hd; [|discriminate].
    apply dequeue_tables in Hd; subst s1.
    eapply inv3_paramReady; [|exact Hs]. exact H.
  - destruct (dequeue StatDev b s) as [s1|] eqn:Hd; [|discriminate].
    apply dequeue_tables in Hd; subst s1. injection Hs as <-.
    unfold statReady. destruct find_buffer as [[k info]|]; exact H.
  - destruct ((0 <=? sq) && (sq <? 2 ^ 32)); [|discriminate].
    destruct (dequeue VideoDev b s) as [s1|] eqn:Hd; [|discriminate].
    apply dequeue_tables in Hd; subst s1.
    eapply inv3_bufferReady; [|exact Hs]. exact H.
Qed.

Lemma inv3_reachable ok n s : reachable_with ok n s -> inv3 s.
Proof.
  induction 1 as [s Hst|s e s' _ IH _ Hs].
  - destruct Hst as (_ & _ & _ & Hf & _ & _ & Hc & _).
    unfold inv3, inv_table; rewrite Hf, Hc.
    repeat split; simpl; try constructor; contradiction.
  - eapply inv3_step; eauto.
Qed.

(** ** C3 *)

(** C3: in every run, no Request is handed to [completeRequest] twice; once
    completed, a Request has no FrameInfo left, so every later
    [tryCompleteRequest] for it is a no-op. *)
Theorem completeRequest_at_most_once (n : nat) (s : St)
    (Hreach : reachable_with any_event n s) :
  NoDup (completed s)
  /\ forall r, In r (completed s) ->
       find_request r s = None /\ tryCompleteRequest r s = s.
Proof.
  pose proof (inv3_reachable _ _ _ Hreach) as (Hs & Hfr & Hn & Hc & Hd).
  split; [exact Hd|]. intros r Hr.
  assert (Hnone : find_request r s = None).
  { destruct (find_request r s) as [[k info]|] eqn:Hf; [|reflexivity].
    apply find_request_in_Some in Hf as [Hin Heq].
    exfalso. apply (Hc k info Hin). rewrite Heq. exact Hr. }
  split; [exact Hnone|]. unfold tryCompleteRequest. rewrite Hnone. reflexivity.
Qed.

Lemma demo_session_start : session_start 5 demo_started.
Proof. repeat split; vm_compute; reflexivity. Qed.

(** ** C4 *)

Lemma NoDup_map_eq {X Y} (f : X -> Y) l x y :
  NoDup (map f l) -> In x l -> In y l -> f x = f y -> x = y.
Proof.
  induction l as [|z t IH]; simpl; intros Hn Hx Hy Hf; [contradiction|].
  inversion Hn as [|? ? Hnot Hn']; subst.
  destruct Hx as [<-|Hx], Hy as [<-|Hy]; auto.
  - exfalso; apply Hnot; rewrite Hf; apply in_map; exact Hy.
  - exfalso; apply Hnot; rewrite <- Hf; apply in_map; exact Hx.
Qed.

Lemma NoDup_map_inj {X Y} (f : X -> Y) l :
  (forall x y, f x = f y -> x = y) -> NoDup l -> NoDup (map f l).
Proof.
  intros Hi. induction 1 as [|x t Hx Ht IH]; simpl; constructor; [|exact IH].
  intro H. apply in_map_iff in H as (y & Hy & Hin). apply Hi in Hy; subst. contradiction.
Qed.

Lemma run_reachable n s evs s' :
  reachable_with any_event n s -> run s evs = Some s' ->
  reachable_with any_event n s'.
Proof.
  revert s. induction evs as [|e evs IH]; simpl; intros s Hr Hrun.
  - injection Hrun as <-. exact Hr.
  - destruct (step s e) as [s1|] eqn:Hs; [|discriminate].
    apply (IH s1); [|exact Hrun]. eapply reach_step; eauto.
Qed.

Fixpoint run_checked (ok : St -> Ev -> bool) (s : St) (evs : list Ev) : option St :=
  match evs with
  | [] => Some s
  | e :: t =>
      if ok s e then match step s e with None => None | Some s' => run_checked ok s' t end
      else None
  end.

Lemma run_checked_reachable ok n s evs s' :
  reachable_with ok n s -> run_checked ok s evs = Some s' -> reachable_with ok n s'.
Proof.
  revert s. induction evs as [|e evs IH]; simpl; intros s Hr Hrun.
  - injection Hrun as <-. exact Hr.
  - destruct (ok s e) eqn:Hok; [|discriminate].
    destruct (step s e) as [s1|] eqn:Hs; [|discriminate].
    apply (IH s1); [|exact Hrun]. eapply reach_step; eauto.
Qed.

(** The parameters and the statistics buffers held by live FrameInfos. *)
Definition pbufs (m : list (Z * RkISP1FrameInfo)) : list Buffer :=
  map (fun p => paramBuffer (snd p)) m.
Definition sbufs (m : list (Z * RkISP1FrameInfo)) : list Buffer :=
  map (fun p => statBuffer (snd p)) m.

(** The counting form of C4: each free queue and the live FrameInfos (each
    holds one buffer of each role) add up to the pool size. *)
Definition pool_count_ok (n : nat) (s : St) : Prop :=
  (length (paramBuffers_ s) + length (frameInfo_ s) = n)%nat
  /\ (length (statBuffers_ s) + length (frameInfo_ s) = n)%nat.

(** The free queue and the live FrameInfos hold exactly the [n] buffers
    [allocateBuffers] made, each once, for both roles. *)
Definition pool_ok (n : nat) (s : St) : Prop :=
  Permutation (paramBuffers_ s ++ pbufs (frameInfo_ s)) (map ParamBuf (slots n))
  /\ Permutation (statBuffers_ s ++ sbufs (frameInfo_ s)) (map StatBuf (slots n)).

(** Queue a Request, stop before it completes, start again, queue another. *)
Definition restart_events : list Ev :=
  [EQueue (demo_request 0); EStop; EStart 0 0 0; EQueue (demo_request 1)].

Definition demo_restarted : St :=
  match run demo_started restart_events with Some s => s | None => demo_started end.

(** C4, as stated: in every run after [allocateBuffers], each free queue and
    the live FrameInfos together account for the whole pool. After a stop
    that abandons frame 0, [start] resets the counter and the next
    [queueRequest] overwrites frame 0's entry: its two buffers are lost. *)
Lemma pool_conservation_fails_on_restart :
  ~ (forall n s, reachable_with any_event n s -> pool_count_ok n s).
Proof.
  intro H.
  assert (Hr : reachable_with any_event 5 demo_restarted).
  { apply (run_reachable 5 demo_started restart_events).
    - apply reach_start, demo_session_start.
    - vm_compute; reflexivity. }
  destruct (H 5%nat demo_restarted Hr) as [H1 _].
  vm_compute in H1. discriminate.
Qed.

Lemma map_find_None_neq {A} k (m : list (Z * A)) :
  map_find k m = None -> forall x, In x m -> fst x <> k.
Proof.
  induction m as [|[k' v'] t IH]; simpl; [contradiction|].
  destruct (k =? k') eqn:E; [discriminate|].
  intros H x [<-|Hx]; [apply Z.eqb_neq in E; simpl; lia|auto].
Qed.

Section BufferViews.
Variable f : RkISP1FrameInfo -> Buffer.

Definition view (m : list (Z * RkISP1FrameInfo)) : list Buffer :=
  map (fun p => f (snd p)) m.

Lemma view_of_In k info m :
  keys_sorted m -> In (k, info) m ->
  Permutation (view m) (f info :: view (filter (key_neq k) m)).
Proof.
  intros Hs Hin. exact (Permutation_map (fun p => f (snd p)) (perm_of_In k info m Hs Hin)).
Qed.

Lemma view_set k info m :
  keys_sorted m ->
  Permutation (view (map_set k info m)) (f info :: view (filter (key_neq k) m)).
Proof.
  intro Hs. exact (Permutation_map (fun p => f (snd p)) (map_set_perm k info m Hs)).
Qed.

Lemma view_set_new k info m :
  keys_sorted m -> map_find k m = None ->
  Permutation (view (map_set k info m)) (f info :: view m).
Proof.
  intros Hs Hf. rewrite (view_set k info m Hs).
  rewrite filter_ext_in with (g := fun _ => true), filter_true; [reflexivity|].
  intros x Hx. unfold key_neq. apply negb_true_iff, Z.eqb_neq.
  exact (map_find_None_neq k m Hf x Hx).
Qed.

Lemma view_set_old k info info' m :
  keys_sorted m -> In (k, info) m -> f info' = f info ->
  Permutation (view (map_set k info' m)) (view m).
Proof.
  intros Hs Hin He. rewrite (view_set k info' m Hs), (view_of_In k info m Hs Hin), He.
  reflexivity.
Qed.

(** Dropping an entry of the table and appending its buffer to the free
    queue keeps the union. *)
Lemma view_erase k info m q :
  keys_sorted m -> In (k, info) m ->
  Permutation ((q ++ [f info]) ++ view (filter (key_neq k) m)) (q ++ view m).
Proof.
  intros Hs Hin. rewrite <- app_assoc. simpl.
  apply Permutation_app_head. symmetry. apply view_of_In; assumption.
Qed.

End BufferViews.

Lemma pbufs_view m : pbufs m = view paramBuffer m.
Proof. reflexivity. Qed.
Lemma sbufs_view m : sbufs m = view statBuffer m.
Proof. reflexivity. Qed.

Lemma pool_tryComplete n r s : inv3 s -> pool_ok n s -> pool_ok n (tryCompleteRequest r s).
Proof.
  intros H [Hp1 Hp2]. unfold tryCompleteRequest.
  destruct (find_request r s) as [[k info]|] eqn:Hf; [|split; assumption].
  apply find_request_in_Some in Hf as [Hin Hr].
  destruct (hasPendingBuffers r s), (metadataProcessed info), (paramDequeued info);
    simpl; try (split; assumption).
  pose proof H as (Hs & Hfr & _).
  assert (Hk : frame info = k) by eauto.
  unfold destroy, find_frame.
  change (frameInfo_ (completeRequest r s)) with (frameInfo_ s).
  rewrite Hk, (In_map_find k info _ Hs Hin).
  unfold pool_ok; simpl. rewrite Hk, map_erase_filter by exact Hs.
  rewrite pbufs_view, sbufs_view in *.
  split.
  - rewrite (view_erase paramBuffer k info _ _ Hs Hin). exact Hp1.
  - rewrite (view_erase statBuffer k info _ _ Hs Hin). exact Hp2.
Qed.

Lemma pool_update n k info info' s :
  inv3 s -> In (k, info) (frameInfo_ s) ->
  paramBuffer info' = paramBuffer info -> statBuffer info' = statBuffer info ->
  pool_ok n s -> pool_ok n (update_info k info' s).
Proof.
  intros (Hs & _) Hin He1 He2 [Hp1 Hp2]. unfold pool_ok, update_info; simpl.
  rewrite pbufs_view, sbufs_view in *.
  rewrite (view_set_old paramBuffer k info info' _ Hs Hin He1).
  rewrite (view_set_old statBuffer k info info' _ Hs Hin He2).
  split; assumption.
Qed.

Lemma pool_queueRequest n rq s :
  inv3 s -> find_frame (frame_ s) s = None -> pool_ok n s ->
  pool_ok n (snd (queueRequest rq s)).
Proof.
  intros (Hs & _) Hff Hp. unfold queueRequest, create.
  destruct (paramBuffers_ s) as [|pb pq] eqn:Ep; [exact Hp|].
  destruct (statBuffers_ s) as [|sb sq] eqn:Eq; [exact Hp|].
  destruct (findBuffer rq) as [vb|]; [|exact Hp].
  destruct Hp as [Hp1 Hp2]. rewrite Ep in Hp1. rewrite Eq in Hp2.
  unfold pool_ok; simpl. rewrite pbufs_view, sbufs_view in *.
  rewrite !view_set_new by assumption. simpl.
  split; rewrite <- Permutation_middle; assumption.
Qed.

Lemma pool_ext n s s' :
  paramBuffers_ s' = paramBuffers_ s -> statBuffers_ s' = statBuffers_ s ->
  frameInfo_ s' = frameInfo_ s -> pool_ok n s -> pool_ok n s'.
Proof. unfold pool_ok; intros -> -> ->; exact id. Qed.

Lemma queueBuffers_run_queues fr s s' :
  queueBuffers_run fr s = Some s' -> statBuffers_ s' = statBuffers_ s.
Proof.
  unfold queueBuffers_run. destruct (find_frame fr s) as [info|]; [|discriminate].
  intros [= <-]. unfold dev_queueBuffer.
  destruct (paramFilled info); repeat (destruct existsb); reflexivity.
Qed.

Lemma pool_paramReady n b s s' :
  inv3 s -> pool_ok n s -> paramReady b s = Some s' -> pool_ok n s'.
Proof.
  unfold paramReady. intros H Hp.
  destruct (find_buffer b s) as [[k info]|] eqn:Hf; [|discriminate].
  intros [= <-]. apply find_buffer_in_Some in Hf as [Hin _].
  apply pool_tryComplete; [eapply inv3_update; eauto|].
  eapply pool_update; eauto.
Qed.

Lemma pool_metadataReady n fr s : inv3 s -> pool_ok n s -> pool_ok n (metadataReady fr s).
Proof.
  unfold metadataReady. intros H Hp.
  destruct (find_frame fr s) as [info|] eqn:Hf; [|exact Hp].
  apply map_find_In in Hf.
  apply pool_tryComplete; [eapply inv3_update; eauto|].
  eapply pool_update; eauto.
Qed.

Lemma pool_queueFrameAction n fr op s :
  inv3 s -> pool_ok n s -> pool_ok n (queueFrameAction fr op s).
Proof.
  intros H Hp. destruct op; simpl.
  - exact Hp.
  - destruct (find_frame fr s) as [info|] eqn:Hf; [|exact Hp].
    apply map_find_In in Hf. eapply pool_update; eauto.
  - apply pool_metadataReady; assumption.
  - exact Hp.
Qed.

Lemma pool_bufferReady n b sq s s' :
  inv3 s -> pool_ok n s -> bufferReady b sq s = Some s' -> pool_ok n s'.
Proof.
  intros H Hp. destruct b; simpl; try discriminate. intros [= <-].
  apply pool_tryComplete; destruct (frame_ s <=? sq); assumption.
Qed.

Lemma pool_step n s e s' :
  inv3 s -> pool_ok n s -> on_queue frame_free s e = true ->
  step s e = Some s' -> pool_ok n s'.
Proof.
  intros H Hp Hok Hs. unfold step in Hs.
  destruct e as [rq|i|fr op|b|b|b sq| |pr sr vr].
  8: { destruct (activeCamera_ s); [discriminate|].
       injection Hs as <-. destruct (start_tables pr sr vr s) as (H1 & _ & H3 & H4 & _).
       eapply pool_ext; eauto. }
  7: { destruct (activeCamera_ s); [|discriminate].
       injection Hs as <-. exact Hp. }
  all: destruct (activeCamera_ s); [|discriminate]; cbn beta iota delta [negb] in Hs.
  - destruct (fresh_request (rq_id rq) s) eqn:Hfr; [|discriminate].
    injection Hs as <-. simpl in Hok. unfold frame_free in Hok.
    destruct (find_frame (frame_ s) s) eqn:Hff; [discriminate|].
    destruct (rq_has_buffer rq); apply pool_queueRequest; assumption.
  - destruct (nth_error (timeline_ s) i) as [a|]; [|discriminate].
    destruct (act_type a).
    1,2: injection Hs as <-; exact Hp.
    destruct (queueBuffers_run_tables _ _ _ Hs) as (H1 & _ & _ & H4).
    eapply pool_ext; eauto. apply (queueBuffers_run_queues _ _ _ Hs).
  - injection Hs as <-. apply pool_queueFrameAction; assumption.
  - destruct (dequeue ParamDev b s) as [s1|] eqn:Hd; [|discriminate].
    apply dequeue_tables in Hd; subst s1.
    eapply pool_paramReady; [| |exact Hs]; assumption.
  - destruct (dequeue StatDev b s) as [s1|] eqn:Hd; [|discriminate].
    apply dequeue_tables in Hd; subst s1. injection Hs as <-.
    unfold statReady. destruct find_buffer as [[k info]|]; exact Hp.
  - destruct ((0 <=? sq) && (sq <? 2 ^ 32)); [|discriminate].
    destruct (dequeue VideoDev b s) as [s1|] eqn:Hd; [|discriminate].
    apply dequeue_tables in Hd; subst s1.
    eapply pool_bufferReady; [| |exact Hs]; assumption.
Qed.

Lemma length_slots n : length (slots n) = n.
Proof. unfold slots. rewrite length_map, length_seq. reflexivity. Qed.

Lemma pool_reachable n s : reachable_with (on_queue frame_free) n s -> pool_ok n s.
Proof.
  intro Hr. induction Hr as [s Hst|s e s' Hr IH Hok Hs].
  - destruct Hst as (_ & Hp & Hq & Hf & _).
    unfold pool_ok. rewrite Hp, Hq, Hf. simpl. rewrite !app_nil_r. split; reflexivity.
  - eapply pool_step; [eapply inv3_reachable; exact Hr|exact IH|exact Hok|exact Hs].
Qed.

Lemma NoDup_slots_buf (g : Z -> Buffer) n :
  (forall i j, g i = g j -> i = j) -> NoDup (map g (slots n)).
Proof.
  intro Hg. unfold slots. rewrite map_map.
  apply NoDup_map_inj; [intros x y E; apply Hg in E; lia|apply seq_NoDup].
Qed.

(** [create] at frame [fr] on a table where [fr] is live: the union of the
    free queue and the table loses the old entry's buffer [old_b]. *)
Lemma create_live_perm (f : RkISP1FrameInfo -> Buffer) (q : St -> list Buffer)
    fr s info s' old :
  keys_sorted (frameInfo_ s) -> In (fr, old) (frameInfo_ s) ->
  q s = f info :: q s' -> frameInfo_ s' = map_set fr info (frameInfo_ s) ->
  Permutation (q s ++ view f (frameInfo_ s)) (f old :: q s' ++ view f (frameInfo_ s')).
Proof.
  intros Hs Hin Hq Ht. rewrite Hq, Ht.
  rewrite (view_of_In f fr old _ Hs Hin), (view_set f fr info _ Hs).
  simpl. rewrite <- !Permutation_middle. apply perm_swap.
Qed.

(** C4, amended: when [queueRequest] is only asked to use frame numbers
    absent from the FrameTable, after [allocateBuffers] and [start] the
    free parameters queue and the live FrameInfos always hold exactly the
    [n] parameters buffers, each once, and likewise for statistics. At
    such a state, [create] on a fresh frame number moves the head of each
    free queue into the table; [create] on a live frame number overwrites
    the entry, and the old entry's two buffers are then neither free nor
    held; [destroy] of a live frame moves its two buffers from the table
    to the tails of the free queues. *)
Theorem pool_conservation n s :
  reachable_with (on_queue frame_free) n s ->
  pool_ok n s
  /\ (forall fr rq info s', create fr rq s = Some (info, s') ->
        match find_frame fr s with
        | None =>
            paramBuffers_ s = paramBuffer info :: paramBuffers_ s'
            /\ statBuffers_ s = statBuffer info :: statBuffers_ s'
            /\ Permutation (pbufs (frameInfo_ s')) (paramBuffer info :: pbufs (frameInfo_ s))
            /\ Permutation (sbufs (frameInfo_ s')) (statBuffer info :: sbufs (frameInfo_ s))
        | Some old =>
            Permutation (paramBuffers_ s ++ pbufs (frameInfo_ s))
                        (paramBuffer old :: paramBuffers_ s' ++ pbufs (frameInfo_ s'))
            /\ Permutation (statBuffers_ s ++ sbufs (frameInfo_ s))
                        (statBuffer old :: statBuffers_ s' ++ sbufs (frameInfo_ s'))
            /\ ~ In (paramBuffer old) (paramBuffers_ s' ++ pbufs (frameInfo_ s'))
            /\ ~ In (statBuffer old) (statBuffers_ s' ++ sbufs (frameInfo_ s'))
        end)
  /\ (forall fr info, find_frame fr s = Some info ->
        fst (destroy fr s) = 0
        /\ paramBuffers_ (snd (destroy fr s)) = paramBuffers_ s ++ [paramBuffer info]
        /\ statBuffers_ (snd (destroy fr s)) = statBuffers_ s ++ [statBuffer info]
        /\ Permutation (pbufs (frameInfo_ s))
                       (paramBuffer info :: pbufs (frameInfo_ (snd (destroy fr s))))
        /\ Permutation (sbufs (frameInfo_ s))
                       (statBuffer info :: sbufs (frameInfo_ (snd (destroy fr s))))).
Proof.
  intro Hr. pose proof (pool_reachable n s Hr) as Hp.
  pose proof (inv3_reachable _ _ _ Hr) as (Hs & Hfr & _).
  split; [exact Hp|]. split.
  - intros fr rq info s' Hc.
    assert (Hc' : exists pq sq,
               paramBuffers_ s = paramBuffer info :: pq /\ statBuffers_ s = statBuffer info :: sq
               /\ paramBuffers_ s' = pq /\ statBuffers_ s' = sq
               /\ frameInfo_ s' = map_set fr info (frameInfo_ s)).
    { unfold create in Hc.
      destruct (paramBuffers_ s) as [|pb pq]; [discriminate|].
      destruct (statBuffers_ s) as [|sb sq]; [discriminate|].
      destruct (findBuffer rq); [|discriminate].
      injection Hc as <- <-. exists pq, sq. repeat split. }
    destruct Hc' as (pq & sq & Ep & Eq & Ep' & Eq' & Et).
    unfold find_frame. destruct (map_find fr (frameInfo_ s)) as [old|] eqn:Hf.
    + apply map_find_In in Hf.
      rewrite ?pbufs_view, ?sbufs_view.
      assert (P1 := create_live_perm paramBuffer paramBuffers_ fr s info s' old Hs Hf
                      (eq_trans Ep (f_equal _ (eq_sym Ep'))) Et).
      assert (P2 := create_live_perm statBuffer statBuffers_ fr s info s' old Hs Hf
                      (eq_trans Eq (f_equal _ (eq_sym Eq'))) Et).
      destruct Hp as [Hp1 Hp2]. rewrite ?pbufs_view in Hp1. rewrite ?sbufs_view in Hp2.
      split; [exact P1|]. split; [exact P2|]. split.
      * intro Hin.
        assert (Hnd : NoDup (paramBuffer old :: paramBuffers_ s' ++ view paramBuffer (frameInfo_ s'))).
        { eapply Permutation_NoDup; [exact P1|].
          eapply Permutation_NoDup; [symmetry; exact Hp1|].
          apply NoDup_slots_buf. intros i j [= E]; exact E. }
        inversion Hnd; contradiction.
      * intro Hin.
        assert (Hnd : NoDup (statBuffer old :: statBuffers_ s' ++ view statBuffer (frameInfo_ s'))).
        { eapply Permutation_NoDup; [exact P2|].
          eapply Permutation_NoDup; [symmetry; exact Hp2|].
          apply NoDup_slots_buf. intros i j [= E]; exact E. }
        inversion Hnd; contradiction.
    + rewrite Ep, Eq, Ep', Eq', Et. rewrite !pbufs_view, !sbufs_view.
      split; [reflexivity|]. split; [reflexivity|].
      split; apply view_set_new; assumption.
  - intros fr info Hf. unfold destroy. rewrite Hf.
    assert (Hk : frame info = fr) by (apply (Hfr fr info), map_find_In, Hf).
    apply map_find_In in Hf. simpl. rewrite Hk, map_erase_filter by exact Hs.
    split; [reflexivity|]. split; [reflexivity|]. split; [reflexivity|].
    rewrite !pbufs_view, !sbufs_view.
    split; apply view_of_In; assumption.
Qed.

(** Request 0 through its whole life, then Request 1 queued: frame 0 was
    created and destroyed, frame 1 is live. *)
Definition pool_events : list Ev :=
  [EQueue (demo_request 0); EIpa 0 RKISP1_IPA_ACTION_PARAM_FILLED; EFire 0;
   EParamDone (ParamBuf 0); EIpa 0 RKISP1_IPA_ACTION_METADATA;
   EImageDone (VideoBuf 0) 0; EQueue (demo_request 1)].

Definition demo_pool : St :=
  match run demo_started pool_events with Some s => s | None => demo_started end.

Lemma pool_conservation_witness :
  reachable_with (on_queue frame_free) 5 demo_pool
  /\ completed demo_pool = [0%nat]
  /\ map fst (frameInfo_ demo_pool) = [1]
  /\ pool_ok 5 demo_pool
  /\ paramBuffers_ (snd (destroy 1 demo_pool)) = paramBuffers_ demo_pool ++ [ParamBuf 1]
  /\ match create 1 (demo_request 2) demo_pool with
     | Some (_, s') => ~ In (ParamBuf 1) (paramBuffers_ s' ++ pbufs (frameInfo_ s'))
     | None => False
     end.
Proof.
  assert (R : reachable_with (on_queue frame_free) 5 demo_pool).
  { apply (run_checked_reachable _ 5 demo_started pool_events).
    - apply reach_start, demo_session_start.
    - vm_compute; reflexivity. }
  destruct (pool_conservation 5 demo_pool R) as (Hp & Hc & Hd).
  assert (Ef : find_frame 1 demo_pool
               = Some (mkFrameInfo 1 (demo_request 1) (ParamBuf 1) (StatBuf 1) (VideoBuf 1)
                         false false false)) by (vm_compute; reflexivity).
  split; [exact R|]. split; [vm_compute; reflexivity|].
  split; [vm_compute; reflexivity|]. split; [exact Hp|]. split.
  - exact (proj1 (proj2 (Hd _ _ Ef))).
  - destruct (create 1 (demo_request 2) demo_pool) as [[info s']|] eqn:Ec;
      [|vm_compute in Ec; discriminate].
    specialize (Hc 1 _ info s' Ec). rewrite Ef in Hc.
    exact (proj1 (proj2 (proj2 Hc))).
Defined.

(** ** C2 *)

Definition is_param (b : Buffer) : bool := match b with ParamBuf _ => true | _ => false end.
Definition is_stat (b : Buffer) : bool := match b with StatBuf _ => true | _ => false end.
Definition is_video (b : Buffer) : bool := match b with VideoBuf _ => true | _ => false end.


Definition is_qb (a : FrameAction) : bool :=
  match act_type a with QueueBuffers => true | _ => false end.

(** The frames with a pending QueueBuffers action. *)
Definition qbs (tl : list FrameAction) : list Z := map act_frame (filter is_qb tl).

Definition typed (s : St) : Prop :=
  Forall (fun b => is_param b = true) (paramBuffers_ s)
  /\ Forall (fun b => is_stat b = true) (statBuffers_ s)
  /\ (forall k i, In (k, i) (frameInfo_ s) ->
        is_param (paramBuffer i) = true /\ is_stat (statBuffer i) = true
        /\ is_video (videoBuffer i) = true).

(** Each parameters buffer is free or held by one FrameInfo; at most one
    QueueBuffers action per frame; a parameters buffer the kernel holds
    belongs to a filled, not yet dequeued FrameInfo whose QueueBuffers
    action has run; a dequeued FrameInfo was filled and its QueueBuffers
    action has run. *)
Definition fill_inv (s : St) : Prop :=
  typed s
  /\ NoDup (paramBuffers_ s ++ pbufs (frameInfo_ s))
  /\ NoDup (qbs (timeline_ s))
  /\ NoDup (kq s)
  /\ (forall b, In (ParamDev, b) (kq s) ->
        exists k i, In (k, i) (frameInfo_ s) /\ paramBuffer i = b
          /\ paramFilled i = true /\ paramDequeued i = false
          /\ ~ In k (qbs (timeline_ s)))
  /\ (forall k i, In (k, i) (frameInfo_ s) -> paramDequeued i = true ->
        paramFilled i = true /\ ~ In k (qbs (timeline_ s))).

Lemma dev_buffer_eqb_spec x y : dev_buffer_eqb x y = true <-> x = y.
Proof.
  destruct x as [d b], y as [d' b']. unfold dev_buffer_eqb, buffer_eqb; simpl.
  destruct (Dev_eq_dec d d'), (Buffer_eq_dec b b'); split; congruence.
Qed.

Lemma remove_one_incl y l x : In x (remove_one y l) -> In x l.
Proof.
  induction l as [|z t IH]; simpl; [auto|].
  destruct (dev_buffer_eqb y z); simpl; intuition.
Qed.

Lemma remove_one_NoDup y l : NoDup l -> NoDup (remove_one y l).
Proof.
  induction 1 as [|z t Hz Ht IH]; simpl; [constructor|].
  destruct (dev_buffer_eqb y z); [exact Ht|].
  constructor; [|exact IH]. intro H; apply remove_one_incl in H; contradiction.
Qed.

Lemma remove_one_notin y l : NoDup l -> ~ In y (remove_one y l).
Proof.
  induction 1 as [|z t Hz Ht IH]; simpl; [auto|].
  destruct (dev_buffer_eqb y z) eqn:E.
  - apply dev_buffer_eqb_spec in E; subst. exact Hz.
  - intros [H|H]; [|contradiction]. subst.
    assert (dev_buffer_eqb y y = true) by (apply dev_buffer_eqb_spec; reflexivity).
    congruence.
Qed.

Lemma dev_queueBuffer_kq d b s :
  (forall x, In x (kq (dev_queueBuffer d b s)) -> In x (kq s) \/ x = (d, b))
  /\ (NoDup (kq s) -> NoDup (kq (dev_queueBuffer d b s))).
Proof.
  unfold dev_queueBuffer. destruct (existsb (dev_buffer_eqb (d, b)) (kq s)) eqn:E.
  - simpl. split; auto.
  - simpl. split.
    + intros x Hx. apply in_app_or in Hx as [Hx|[<-|[]]]; auto.
    + intro Hn. apply NoDup_app; [exact Hn|repeat constructor; simpl; auto|].
      intros x Hx [<-|[]].
      assert (existsb (dev_buffer_eqb (d, b)) (kq s) = true) as Hx'
        by (apply existsb_exists; exists (d, b); split;
            [exact Hx|apply dev_buffer_eqb_spec; reflexivity]).
      congruence.
Qed.

Lemma qbs_cons a tl : qbs (a :: tl) = qbs [a] ++ qbs tl.
Proof. unfold qbs; simpl; destruct (is_qb a); reflexivity. Qed.

Lemma qbs_app tl tl' : qbs (tl ++ tl') = qbs tl ++ qbs tl'.
Proof. unfold qbs; rewrite filter_app, map_app; reflexivity. Qed.

Lemma qbs_remove_nth i tl a :
  nth_error tl i = Some a -> Permutation (qbs tl) (qbs [a] ++ qbs (remove_nth i tl)).
Proof.
  revert tl; induction i as [|i IH]; intros [|x t]; simpl; try discriminate.
  - intros [= ->]. rewrite qbs_cons. reflexivity.
  - intro H. rewrite (qbs_cons x t), (qbs_cons x (remove_nth i t)).
    transitivity (qbs [x] ++ (qbs [a] ++ qbs (remove_nth i t))).
    + apply Permutation_app_head, IH, H.
    + rewrite !app_assoc. apply Permutation_app_tail, Permutation_app_comm.
Qed.

Lemma qbs_existsb fr tl : In fr (qbs tl) -> existsb (is_qb_for fr) tl = true.
Proof.
  unfold qbs. intro H. apply in_map_iff in H as (a & <- & H).
  apply filter_In in H as [H Hq]. apply existsb_exists. exists a. split; [exact H|].
  unfold is_qb, is_qb_for in *. destruct (act_type a); try discriminate.
  apply Z.eqb_refl.
Qed.

Lemma filter_absent {A} k (m : list (Z * A)) :
  map_find k m = None -> filter (key_neq k) m = m.
Proof.
  intro Hf. rewrite filter_ext_in with (g := fun _ => true).
  - apply filter_true.
  - intros x Hx. unfold key_neq. apply negb_true_iff, Z.eqb_neq.
    exact (map_find_None_neq k m Hf x Hx).
Qed.

Lemma In_map_set_self {A} k (v : A) m : keys_sorted m -> In (k, v) (map_set k v m).
Proof.
  intro Hs. eapply Permutation_in; [symmetry; apply map_set_perm, Hs|]. left; reflexivity.
Qed.

Lemma In_map_set_other {A} k (v : A) m k' v' :
  keys_sorted m -> In (k', v') m -> k' <> k -> In (k', v') (map_set k v m).
Proof.
  intros Hs Hin Hne. eapply Permutation_in; [symmetry; apply map_set_perm, Hs|].
  right. apply filter_In. split; [exact Hin|].
  unfold key_neq; simpl. apply negb_true_iff, Z.eqb_neq, Hne.
Qed.

Lemma key_unique {A} k (v v' : A) m : keys_sorted m -> In (k, v) m -> In (k, v') m -> v = v'.
Proof.
  intros Hs H1 H2. pose proof (In_map_find k v m Hs H1) as E1.
  rewrite (In_map_find k v' m Hs H2) in E1. congruence.
Qed.

Lemma pbufs_perm_set m k info info' :
  keys_sorted m -> In (k, info) m -> paramBuffer info' = paramBuffer info ->
  Permutation (pbufs (map_set k info' m)) (pbufs m).
Proof.
  intros Hs Hin He. unfold pbufs.
  rewrite (Permutation_map _ (map_set_perm k info' m Hs)).
  rewrite (Permutation_map _ (perm_of_In k info m Hs Hin)).
  simpl. rewrite He. reflexivity.
Qed.

Section FillInv.

Variable s : St.
Hypothesis Hinv : inv3 s.
Hypothesis Hfill : fill_inv s.

Lemma holder_unique k i k' i' :
  In (k, i) (frameInfo_ s) -> In (k', i') (frameInfo_ s) ->
  paramBuffer i = paramBuffer i' -> k = k' /\ i = i'.
Proof.
  intros H1 H2 He. destruct Hfill as (_ & Hn & _).
  apply NoDup_app_remove_l in Hn.
  pose proof (NoDup_map_eq _ _ (k, i) (k', i') Hn H1 H2 He) as E. injection E; auto.
Qed.

Lemma dequeued_facts k i :
  In (k, i) (frameInfo_ s) -> paramDequeued i = true ->
  paramFilled i = true /\ ~ In k (qbs (timeline_ s))
  /\ ~ In (ParamDev, paramBuffer i) (kq s).
Proof.
  intros Hin Hd. destruct Hfill as (_ & _ & _ & _ & HP & HQ).
  destruct (HQ k i Hin Hd) as [Hf Hq]. repeat split; try assumption.
  intro Hk. destruct (HP _ Hk) as (k0 & i0 & Hin0 & Hb & _ & Hd0 & _).
  destruct (holder_unique k i k0 i0 Hin Hin0 (eq_sym Hb)) as [_ <-]. congruence.
Qed.

Lemma param_holder b k i :
  In (ParamDev, b) (kq s) -> find_buffer b s = Some (k, i) ->
  In (k, i) (frameInfo_ s) /\ paramBuffer i = b /\ paramFilled i = true
  /\ paramDequeued i = false /\ ~ In k (qbs (timeline_ s)).
Proof.
  intros Hk Hf. apply find_buffer_in_Some in Hf as [Hin Hb].
  pose proof Hfill as ((_ & _ & Ht) & _ & _ & _ & HP & _).
  destruct (HP _ Hk) as (k0 & i0 & Hin0 & Hb0 & Hf0 & Hd0 & Hq0).
  destruct (Ht _ _ Hin0) as (Hp0 & _ & _). destruct (Ht _ _ Hin) as (_ & Hs & Hv).
  rewrite Hb0 in Hp0.
  assert (paramBuffer i = b) as Hpb.
  { destruct Hb as [Hb|[Hb|Hb]]; [exact Hb| |]; rewrite Hb in *;
      destruct b; discriminate. }
  destruct (holder_unique k i k0 i0 Hin Hin0 (eq_trans Hpb (eq_sym Hb0))) as [-> ->].
  auto.
Qed.

Lemma fill_inv_update k i i' :
  In (k, i) (frameInfo_ s) ->
  paramBuffer i' = paramBuffer i -> statBuffer i' = statBuffer i ->
  videoBuffer i' = videoBuffer i ->
  (paramFilled i = true -> paramFilled i' = true) ->
  (paramDequeued i' = true ->
     paramFilled i' = true /\ ~ In k (qbs (timeline_ s))
     /\ ~ In (ParamDev, paramBuffer i) (kq s)) ->
  fill_inv (update_info k i' s).
Proof.
  intros Hin Hp Hs Hv H1 H2. pose proof Hinv as (Hsort & _).
  destruct Hfill as ((Hq1 & Hq2 & Ht) & Hn & Hqb & Hk & HP & HQ).
  unfold fill_inv, typed, update_info; simpl.
  split; [split; [exact Hq1|split; [exact Hq2|]]|].
  { intros k' i'' H. apply In_map_set in H as [[= <- <-]|H]; [|eauto].
    rewrite Hp, Hs, Hv. eauto. }
  split.
  { eapply Permutation_NoDup; [|exact Hn].
    apply Permutation_app_head. symmetry. eapply pbufs_perm_set; eauto. }
  split; [exact Hqb|]. split; [exact Hk|]. split.
  - intros b Hb. destruct (HP b Hb) as (k0 & i0 & Hin0 & Hb0 & Hf0 & Hd0 & Hq0).
    destruct (Z.eq_dec k0 k) as [->|Hne].
    + pose proof (key_unique k i0 i _ Hsort Hin0 Hin) as ->.
      exists k, i'. split; [apply In_map_set_self, Hsort|].
      split; [congruence|]. split; [auto|]. split; [|exact Hq0].
      destruct (paramDequeued i') eqn:E; [|reflexivity].
      exfalso. apply (H2 eq_refl). rewrite <- Hb0 in Hb. exact Hb.
    + exists k0, i0. split; [apply In_map_set_other; assumption|]. auto.
  - intros k' i'' H Hd. apply In_map_set in H as [[= <- <-]|H].
    + destruct (H2 Hd) as (? & ? & _). auto.
    + eauto.
Qed.

Lemma fill_inv_tryComplete r : fill_inv (tryCompleteRequest r s).
Proof.
  unfold tryCompleteRequest.
  destruct (find_request r s) as [[k info]|] eqn:Hf; [|exact Hfill].
  apply find_request_in_Some in Hf as [Hin Hr].
  destruct (hasPendingBuffers r s), (metadataProcessed info), (paramDequeued info) eqn:Hd;
    simpl; try exact Hfill.
  pose proof Hinv as (Hsort & Hfr & _).
  assert (Hk : frame info = k) by eauto. rewrite Hk.
  unfold destroy, find_frame.
  change (frameInfo_ (completeRequest r s)) with (frameInfo_ s).
  rewrite (In_map_find k info _ Hsort Hin).
  rewrite map_erase_filter by exact Hsort.
  destruct Hfill as ((Hq1 & Hq2 & Ht) & Hn & Hqb & Hkq & HP & HQ).
  unfold fill_inv, typed; simpl. rewrite Hk.
  split; [split; [|split]|].
  { apply Forall_app; split; [exact Hq1|]. constructor; [|constructor]. apply (Ht _ _ Hin). }
  { apply Forall_app; split; [exact Hq2|]. constructor; [|constructor]. apply (Ht _ _ Hin). }
  { intros k' i' H. apply filter_In in H as [H _]. eauto. }
  split.
  { eapply Permutation_NoDup; [|exact Hn]. rewrite <- app_assoc.
    apply Permutation_app_head. unfold pbufs.
    rewrite (Permutation_map _ (perm_of_In k info _ Hsort Hin)) at 1. reflexivity. }
  split; [exact Hqb|]. split; [exact Hkq|]. split.
  - intros b Hb. destruct (HP b Hb) as (k0 & i0 & Hin0 & Hb0 & Hf0 & Hd0 & Hq0).
    exists k0, i0. split; [|auto]. apply filter_In. split; [exact Hin0|].
    unfold key_neq; simpl. apply negb_true_iff, Z.eqb_neq. intros ->.
    pose proof (key_unique k i0 info _ Hsort Hin0 Hin). congruence.
  - intros k' i' H. apply filter_In in H as [H _]. eauto.
Qed.

End FillInv.

Lemma fill_inv_ext s s' :
  paramBuffers_ s' = paramBuffers_ s -> statBuffers_ s' = statBuffers_ s ->
  frameInfo_ s' = frameInfo_ s -> timeline_ s' = timeline_ s ->
  incl (kq s') (kq s) -> NoDup (kq s') -> fill_inv s -> fill_inv s'.
Proof.
  intros E1 E2 E3 E4 Hi Hn (Ht & Hb & Hq & _ & HP & HQ).
  unfold fill_inv, typed in *. rewrite E1, E2, E3, E4.
  refine (conj Ht (conj Hb (conj Hq (conj Hn (conj _ HQ))))).
  intros b Hx. apply HP, Hi, Hx.
Qed.

Lemma fill_inv_timeline s tl :
  fill_inv s -> incl (qbs tl) (qbs (timeline_ s)) -> NoDup (qbs tl) ->
  fill_inv (set_timeline tl s).
Proof.
  intros (Ht & Hn & _ & Hkq & HP & HQ) Hi Hnd.
  refine (conj Ht (conj Hn (conj Hnd (conj Hkq (conj _ _))))); cbn.
  - intros b Hb. destruct (HP b Hb) as (k & i & H1 & H2 & H3 & H4 & H5).
    exists k, i. repeat split; auto.
  - intros k i H Hd. destruct (HQ k i H Hd) as [H1 H2]. split; auto.
Qed.

Lemma dequeue_In d b s s1 : dequeue d b s = Some s1 -> In (d, b) (kq s).
Proof.
  unfold dequeue. destruct existsb eqn:E; [|discriminate]. intros _.
  apply existsb_exists in E as (y & Hy & Hq). apply dev_buffer_eqb_spec in Hq.
  subst; exact Hy.
Qed.

Lemma fill_inv_dequeue d b s :
  fill_inv s -> fill_inv (set_kq (remove_one (d, b) (kq s)) s).
Proof.
  intro H. apply (fill_inv_ext s); try reflexivity.
  - intros x; apply remove_one_incl.
  - apply remove_one_NoDup. apply H.
  - exact H.
Qed.

Lemma fill_inv_queueRequest rq s :
  inv3 s -> fill_inv s -> frame_unused s = true -> fill_inv (snd (queueRequest rq s)).
Proof.
  intros Hinv Hfill Hu. unfold frame_unused, frame_free in Hu.
  apply andb_prop in Hu as [Hu1 Hu2].
  destruct (find_frame (frame_ s) s) eqn:Hff; [discriminate|]. clear Hu1.
  assert (Hnq : ~ In (frame_ s) (qbs (timeline_ s))).
  { intro H. apply qbs_existsb in H. rewrite H in Hu2. discriminate. }
  pose proof Hinv as (Hsort & _).
  pose proof Hfill as ((Hq1 & Hq2 & Ht) & Hn & Hqb & Hkq & HP & HQ).
  unfold find_frame in Hff.
  assert (Hold : forall k i, In (k, i) (frameInfo_ s) -> k <> frame_ s)
    by (intros k i H; exact (map_find_None_neq _ _ Hff _ H)).
  unfold queueRequest, create.
  destruct (paramBuffers_ s) as [|pb pq] eqn:Ep; [exact Hfill|].
  destruct (statBuffers_ s) as [|sb sq] eqn:Eq; [exact Hfill|].
  destruct (findBuffer rq) as [vb|] eqn:Ev; [|exact Hfill].
  try rewrite Ep in Hq1; try rewrite Ep in Hn; try rewrite Eq in Hq2.
  inversion Hq1 as [|? ? Hpb Hpq]; subst. inversion Hq2 as [|? ? Hsb Hsq]; subst.
  assert (Hvb : is_video vb = true).
  { unfold findBuffer in Ev. destruct (rq_has_buffer rq); [|discriminate].
    injection Ev as <-. reflexivity. }
  unfold fill_inv, typed; simpl. rewrite qbs_app.
  change (qbs [mkAction (frame_ s) QueueBuffers]) with [frame_ s].
  split; [split; [exact Hpq|split; [exact Hsq|]]|].
  { intros k i H. apply In_map_set in H as [[= -> ->]|H]; [simpl; auto|eauto]. }
  split.
  { eapply Permutation_NoDup; [|exact Hn]. unfold pbufs.
    rewrite (Permutation_map _ (map_set_perm _ _ _ Hsort)).
    rewrite filter_absent by exact Hff. simpl. apply Permutation_middle. }
  split.
  { apply NoDup_app; [exact Hqb|repeat constructor; simpl; auto|].
    intros x Hx [<-|[]]. contradiction. }
  split; [exact Hkq|]. split.
  - intros b Hb. destruct (HP b Hb) as (k0 & i0 & Hin0 & Hb0 & Hf0 & Hd0 & Hq0).
    pose proof (Hold _ _ Hin0) as Hne.
    exists k0, i0. split; [apply In_map_set_other; assumption|].
    repeat split; try assumption.
    intros H. apply in_app_or in H as [H|[H|[]]]; [contradiction|congruence].
  - intros k i H Hd. apply In_map_set in H as [[= -> ->]|H]; [discriminate|].
    pose proof (Hold _ _ H) as Hne. destruct (HQ k i H Hd) as [Hf Hq].
    split; [exact Hf|].
    intros H'. apply in_app_or in H' as [H'|[H'|[]]]; [contradiction|congruence].
Qed.

Lemma fill_inv_queueBuffers_run fr s s' :
  fill_inv s -> ~ In fr (qbs (timeline_ s)) ->
  (forall info, find_frame fr s = Some info -> paramDequeued info = false) ->
  queueBuffers_run fr s = Some s' -> fill_inv s'.
Proof.
  intros Hfill Hnq Hnd Hrun.
  pose proof (queueBuffers_run_tables _ _ _ Hrun) as (E1 & _ & E3 & E4).
  pose proof (queueBuffers_run_queues _ _ _ Hrun) as E2.
  pose proof Hfill as (Ht & Hn & Hqb & Hkq & HP & HQ).
  unfold queueBuffers_run in Hrun.
  destruct (find_frame fr s) as [info|] eqn:Hf; [|discriminate].
  specialize (Hnd info eq_refl). apply map_find_In in Hf.
  assert (Hk : NoDup (kq s') /\ forall b, In (ParamDev, b) (kq s') ->
            In (ParamDev, b) (kq s) \/ (b = paramBuffer info /\ paramFilled info = true)).
  { injection Hrun as <-.
    destruct (paramFilled info) eqn:Hpf.
    - destruct (dev_queueBuffer_kq ParamDev (paramBuffer info) s) as [P1 P2].
      destruct (dev_queueBuffer_kq StatDev (statBuffer info)
                  (dev_queueBuffer ParamDev (paramBuffer info) s)) as [S1 S2].
      destruct (dev_queueBuffer_kq VideoDev (videoBuffer info)
                  (dev_queueBuffer StatDev (statBuffer info)
                     (dev_queueBuffer ParamDev (paramBuffer info) s))) as [V1 V2].
      split; [auto|]. intros b Hb.
      apply V1 in Hb as [Hb|Hb]; [|discriminate].
      apply S1 in Hb as [Hb|Hb]; [|discriminate].
      apply P1 in Hb as [Hb|Hb]; [auto|]. injection Hb as ->. auto.
    - destruct (dev_queueBuffer_kq StatDev (statBuffer info) s) as [S1 S2].
      destruct (dev_queueBuffer_kq VideoDev (videoBuffer info)
                  (dev_queueBuffer StatDev (statBuffer info) s)) as [V1 V2].
      split; [auto|]. intros b Hb.
      apply V1 in Hb as [Hb|Hb]; [|discriminate].
      apply S1 in Hb as [Hb|Hb]; [auto|discriminate]. }
  destruct Hk as [Hk1 Hk2].
  unfold fill_inv, typed in *. rewrite E1, E2, E3, E4.
  refine (conj Ht (conj Hn (conj Hqb (conj Hk1 (conj _ HQ))))).
  intros b Hb. apply Hk2 in Hb as [Hb|[-> Hpf]]; [apply HP, Hb|].
  exists fr, info. auto.
Qed.

Lemma fill_inv_fire s i a :
  inv3 s -> fill_inv s -> nth_error (timeline_ s) i = Some a ->
  let s1 := set_timeline (remove_nth i (timeline_ s)) s in
  fill_inv s1
  /\ (act_type a = QueueBuffers ->
      forall s', queueBuffers_run (act_frame a) s1 = Some s' -> fill_inv s').
Proof.
  intros Hinv Hfill Ha s1.
  pose proof (qbs_remove_nth _ _ _ Ha) as Hp.
  pose proof Hfill as (_ & _ & Hqb & _ & _ & HQ).
  pose proof (Permutation_NoDup Hp Hqb) as Hnd.
  assert (Hf1 : fill_inv s1).
  { apply fill_inv_timeline; [exact Hfill| |exact (NoDup_app_remove_l _ _ Hnd)].
    intros x Hx. eapply Permutation_in; [symmetry; exact Hp|]. apply in_or_app; auto. }
  split; [exact Hf1|]. intros Hty s' Hrun.
  assert (Ea : qbs [a] = [act_frame a])
    by (unfold qbs, is_qb; simpl; rewrite Hty; reflexivity).
  rewrite Ea in Hp, Hnd. simpl in Hnd. inversion Hnd as [|? ? Hnot _]; subst.
  apply (fill_inv_queueBuffers_run (act_frame a) s1); [exact Hf1|exact Hnot| |exact Hrun].
  intros info Hf. destruct (paramDequeued info) eqn:Hd; [|reflexivity].
  exfalso. apply map_find_In in Hf. destruct (HQ _ _ Hf Hd) as [_ Hq]. apply Hq.
  eapply Permutation_in; [symmetry; exact Hp|]. left; reflexivity.
Qed.

Lemma fill_inv_metadata_update s fr info :
  inv3 s -> fill_inv s -> In (fr, info) (frameInfo_ s) ->
  fill_inv (update_info fr (with_metadataProcessed info) s).
Proof.
  intros Hinv Hfill Hin. apply (fill_inv_update s Hinv Hfill fr info); auto.
  simpl. intro Hd. destruct (dequeued_facts s Hfill fr info Hin Hd) as (? & ? & ?). auto.
Qed.

Lemma fill_inv_paramDequeued_update s b k i :
  inv3 s -> fill_inv s -> In (ParamDev, b) (kq s) -> find_buffer b s = Some (k, i) ->
  In (k, i) (frameInfo_ s) /\ paramFilled i = true
  /\ fill_inv (update_info k (with_paramDequeued i)
                 (set_kq (remove_one (ParamDev, b) (kq s)) s)).
Proof.
  intros Hinv Hfill Hb Hfb.
  destruct (param_holder s Hfill b k i Hb Hfb) as (Hin & Hpb & Hpf & Hpd & Hq).
  split; [exact Hin|]. split; [exact Hpf|].
  pose proof Hfill as (_ & _ & _ & Hkq & _).
  apply (fill_inv_update (set_kq (remove_one (ParamDev, b) (kq s)) s) Hinv (fill_inv_dequeue ParamDev b s Hfill) k i); auto.
  simpl. intros _. split; [exact Hpf|]. split; [exact Hq|].
  rewrite Hpb. apply remove_one_notin, Hkq.
Qed.

Lemma fill_inv_queueFrameAction fr op s :
  inv3 s -> fill_inv s -> fill_inv (queueFrameAction fr op s).
Proof.
  intros Hinv Hfill. destruct op; simpl.
  - unfold scheduleAction. apply fill_inv_timeline; [exact Hfill| |];
      rewrite qbs_app; change (qbs [mkAction fr SetSensor]) with (@nil Z);
      rewrite app_nil_r; [intros x Hx; exact Hx|apply Hfill].
  - destruct (find_frame fr s) as [info|] eqn:Hf; [|exact Hfill].
    apply map_find_In in Hf.
    apply (fill_inv_update s Hinv Hfill fr info); auto.
    simpl. intro Hd. destruct (dequeued_facts s Hfill fr info Hf Hd) as (? & ? & ?). auto.
  - unfold metadataReady. destruct (find_frame fr s) as [info|] eqn:Hf; [|exact Hfill].
    apply map_find_In in Hf.
    apply fill_inv_tryComplete.
    + eapply inv3_update; eauto.
    + apply fill_inv_metadata_update; assumption.
  - exact Hfill.
Qed.

Lemma fill_inv_step s e s' :
  inv3 s -> fill_inv s -> on_queue frame_unused s e = true ->
  step s e = Some s' -> fill_inv s'.
Proof.
  intros Hinv Hfill Hok Hs. unfold step in Hs.
  destruct e as [rq|i|fr op|b|b|b sq| |pr sr vr].
  8: { destruct (activeCamera_ s); [discriminate|].
       injection Hs as <-. destruct (start_tables pr sr vr s) as (H1 & _ & H3 & H4 & H5 & H6).
       apply (fill_inv_ext s); try assumption.
       - rewrite H5. intros x Hx; exact Hx.
       - rewrite H5. apply Hfill. }
  7: { destruct (activeCamera_ s); [|discriminate].
       injection Hs as <-. destruct Hfill as (Ht & Hn & _ & _ & _ & HQ).
       refine (conj Ht (conj Hn (conj (NoDup_nil _) (conj (NoDup_nil _) (conj _ _))))); cbn.
       - intros b [].
       - intros k i H Hd. split; [apply (HQ k i H Hd)|intros []]. }
  all: destruct (activeCamera_ s); [|discriminate]; cbn beta iota delta [negb] in Hs.
  - destruct (fresh_request (rq_id rq) s) eqn:Hfr; [|discriminate].
    injection Hs as <-. change (frame_unused s = true) in Hok.
    destruct (rq_has_buffer rq); apply fill_inv_queueRequest; assumption.
  - destruct (nth_error (timeline_ s) i) as [a|] eqn:Ha; [|discriminate].
    destruct (fill_inv_fire s i a Hinv Hfill Ha) as [H1 H2].
    destruct (act_type a) eqn:Hty.
    1,2: injection Hs as <-; exact H1.
    exact (H2 eq_refl s' Hs).
  - injection Hs as <-. apply fill_inv_queueFrameAction; assumption.
  - destruct (dequeue ParamDev b s) as [s1|] eqn:Hd; [|discriminate].
    pose proof (dequeue_In _ _ _ _ Hd) as Hb.
    apply dequeue_tables in Hd; subst s1.
    unfold paramReady in Hs.
    destruct (find_buffer b (set_kq (remove_one (ParamDev, b) (kq s)) s))
      as [[k i]|] eqn:Hfb; [|discriminate].
    injection Hs as <-. cbv zeta.
    destruct (fill_inv_paramDequeued_update s b k i Hinv Hfill Hb Hfb) as (Hin & _ & Hf1).
    apply fill_inv_tryComplete; [|exact Hf1].
    eapply inv3_update; [exact Hinv|exact Hin|reflexivity|reflexivity].
  - destruct (dequeue StatDev b s) as [s1|] eqn:Hd; [|discriminate].
    apply dequeue_tables in Hd; subst s1. injection Hs as <-.
    pose proof (fill_inv_dequeue StatDev b s Hfill) as Hf1.
    unfold statReady. destruct find_buffer as [[k info]|]; exact Hf1.
  - destruct ((0 <=? sq) && (sq <? 2 ^ 32)); [|discriminate].
    destruct (dequeue VideoDev b s) as [s1|] eqn:Hd; [|discriminate].
    apply dequeue_tables in Hd; subst s1.
    pose proof (fill_inv_dequeue VideoDev b s Hfill) as Hf1.
    destruct b; simpl in Hs; try discriminate. injection Hs as <-.
    apply fill_inv_tryComplete; destruct (frame_ s <=? sq); assumption.
Qed.

Lemma fill_inv_session_start n s : session_start n s -> fill_inv s.
Proof.
  intros (_ & Hp & Hq & Hf & Htl & Hk & _).
  unfold fill_inv, typed. rewrite Hp, Hq, Hf, Htl, Hk.
  split; [split; [|split]|].
  - apply Forall_forall. intros x Hx. apply in_map_iff in Hx as (y & <- & _). reflexivity.
  - apply Forall_forall. intros x Hx. apply in_map_iff in Hx as (y & <- & _). reflexivity.
  - intros k i [].
  - split; [|split; [constructor|split; [constructor|split]]].
    + simpl. rewrite app_nil_r. unfold slots. rewrite map_map.
      apply NoDup_map_inj; [intros x y H; injection H; lia|apply seq_NoDup].
    + intros b [].
    + intros k i [].
Qed.

Lemma fill_inv_reachable n s : reachable_with (on_queue frame_unused) n s -> fill_inv s.
Proof.
  intro Hr. induction Hr as [s Hst|s e s' Hr IH Hok Hs].
  - apply (fill_inv_session_start n), Hst.
  - eapply fill_inv_step; [eapply inv3_reachable; exact Hr|exact IH|exact Hok|exact Hs].
Qed.

Lemma tryComplete_completed r s x :
  In x (completed (tryCompleteRequest r s)) ->
  In x (completed s)
  \/ exists k i, find_request r s = Some (k, i) /\ paramDequeued i = true
       /\ rq_id (request i) = x.
Proof.
  unfold tryCompleteRequest.
  destruct (find_request r s) as [[k i]|] eqn:Hf; [|auto].
  pose proof (find_request_in_Some _ _ _ _ Hf) as [_ Hr].
  destruct (hasPendingBuffers r s), (metadataProcessed i), (paramDequeued i) eqn:Hd;
    simpl; auto.
  rewrite destroy_completed. simpl. intro H.
  apply in_app_or in H as [H|[<-|[]]]; [auto|]. right. exists k, i. auto.
Qed.

Lemma completion_filled s r x :
  fill_inv s -> ~ In x (completed s) -> In x (completed (tryCompleteRequest r s)) ->
  exists k i, In (k, i) (frameInfo_ s) /\ rq_id (request i) = x /\ paramFilled i = true.
Proof.
  intros Hf Hn H.
  apply tryComplete_completed in H as [H|(k & i & Hfr & Hd & Hx)]; [contradiction|].
  apply find_request_in_Some in Hfr as [Hin _].
  pose proof Hf as (_ & _ & _ & _ & _ & HQ). exists k, i.
  destruct (HQ k i Hin Hd). auto.
Qed.

Lemma completion_through_update s k i i' r x :
  fill_inv (update_info k i' s) -> In (k, i) (frameInfo_ s) ->
  request i' = request i -> paramFilled i' = paramFilled i ->
  ~ In x (completed s) -> In x (completed (tryCompleteRequest r (update_info k i' s))) ->
  exists k0 i0, In (k0, i0) (frameInfo_ s) /\ rq_id (request i0) = x
    /\ paramFilled i0 = true.
Proof.
  intros Hf Hin Hr Hp Hn H.
  destruct (completion_filled _ r x Hf Hn H) as (k0 & i0 & Hin0 & Hx & Hf0).
  apply In_map_set in Hin0 as [[= -> ->]|Hin0].
  - exists k, i. rewrite <- Hr, <- Hp. auto.
  - exists k0, i0. auto.
Qed.

Lemma queueRequest_completed rq s : completed (snd (queueRequest rq s)) = completed s.
Proof.
  unfold queueRequest, create.
  destruct (paramBuffers_ s), (statBuffers_ s), (findBuffer rq); reflexivity.
Qed.

Lemma step_completion_filled s e s' x :
  inv3 s -> fill_inv s -> step s e = Some s' ->
  ~ In x (completed s) -> In x (completed s') ->
  exists k i, In (k, i) (frameInfo_ s) /\ rq_id (request i) = x /\ paramFilled i = true.
Proof.
  intros Hinv Hfill Hs Hn Hc. unfold step in Hs.
  destruct e as [rq|i|fr op|b|b|b sq| |pr sr vr].
  8: { destruct (activeCamera_ s); [discriminate|].
       injection Hs as <-. destruct (start_tables pr sr vr s) as (_ & H2 & _).
       rewrite H2 in Hc. contradiction. }
  7: { destruct (activeCamera_ s); [|discriminate].
       injection Hs as <-. contradiction. }
  all: destruct (activeCamera_ s); [|discriminate]; cbn beta iota delta [negb] in Hs.
  - destruct (fresh_request (rq_id rq) s); [|discriminate].
    injection Hs as <-. rewrite queueRequest_completed in Hc.
    destruct (rq_has_buffer rq); contradiction.
  - destruct (nth_error (timeline_ s) i) as [a|]; [|discriminate].
    destruct (act_type a).
    1,2: injection Hs as <-; contradiction.
    destruct (queueBuffers_run_tables _ _ _ Hs) as (_ & H2 & _).
    rewrite H2 in Hc. contradiction.
  - injection Hs as <-. destruct op; simpl in Hc.
    + contradiction.
    + destruct (find_frame fr s); contradiction.
    + unfold metadataReady in Hc.
      destruct (find_frame fr s) as [info|] eqn:Hf; [|contradiction].
      apply map_find_In in Hf.
      exact (completion_through_update s fr info (with_metadataProcessed info) _ x
               (fill_inv_metadata_update s fr info Hinv Hfill Hf) Hf eq_refl eq_refl Hn Hc).
    + contradiction.
  - destruct (dequeue ParamDev b s) as [s1|] eqn:Hd; [|discriminate].
    pose proof (dequeue_In _ _ _ _ Hd) as Hb.
    apply dequeue_tables in Hd; subst s1.
    unfold paramReady in Hs.
    destruct (find_buffer b (set_kq (remove_one (ParamDev, b) (kq s)) s))
      as [[k i]|] eqn:Hfb; [|discriminate].
    injection Hs as <-. cbv zeta in Hc.
    destruct (fill_inv_paramDequeued_update s b k i Hinv Hfill Hb Hfb) as (Hin & _ & Hf1).
    exact (completion_through_update (set_kq (remove_one (ParamDev, b) (kq s)) s)
             k i _ _ x Hf1 Hin eq_refl eq_refl Hn Hc).
  - destruct (dequeue StatDev b s) as [s1|] eqn:Hd; [|discriminate].
    apply dequeue_tables in Hd; subst s1. injection Hs as <-.
    unfold statReady in Hc. destruct find_buffer as [[k info]|]; contradiction.
  - destruct ((0 <=? sq) && (sq <? 2 ^ 32)); [|discriminate].
    destruct (dequeue VideoDev b s) as [s1|] eqn:Hd; [|discriminate].
    apply dequeue_tables in Hd; subst s1.
    pose proof (fill_inv_dequeue VideoDev b s Hfill) as Hf1.
    destruct b; simpl in Hs; try discriminate. injection Hs as <-.
    destruct (frame_ s <=? sq);
      match type of Hc with
      | In _ (completed (tryCompleteRequest _ ?t)) =>
          exact (completion_filled t req x Hf1 Hn Hc)
      end.
Qed.

(** A run for C2: no Request should be completed while its [paramFilled]
    flag is false, but [tryCompleteRequest] does not test [paramFilled]. After a kernel
    sequence of 2^32 - 1 the frame counter wraps to 0, [queueRequest] reuses
    live frame numbers, a FrameInfo inherits a parameters buffer another
    frame had queued, and its [paramDequeued] flag is set by that frame's
    dequeue: Request 5 is completed with [paramFilled] still false. *)
Definition wrap_events : list Ev :=
  [EQueue (demo_request 0); EQueue (demo_request 1); EFire 0;
   EImageDone (VideoBuf 0) 4294967295;
   EQueue (demo_request 2); EQueue (demo_request 3);
   EIpa 1 RKISP1_IPA_ACTION_PARAM_FILLED; EFire 1; EFire 0;
   EParamDone (ParamBuf 3); EFire 0; EIpa 1 RKISP1_IPA_ACTION_METADATA;
   EImageDone (VideoBuf 3) 1; EQueue (demo_request 4); EQueue (demo_request 5);
   EParamDone (ParamBuf 3); EFire 0; EFire 0; EIpa 3 RKISP1_IPA_ACTION_METADATA].

Definition demo_wrapped : St :=
  match run demo_started wrap_events with Some s => s | None => demo_started end.

Definition wrap_last : Ev := EImageDone (VideoBuf 5) 3.

Definition demo_wrapped_done : St :=
  match step demo_wrapped wrap_last with Some s => s | None => demo_wrapped end.

(** C2, as stated, fails: the state after [wrap_events] is reachable, and
    the image buffer of Request 5 completes it while its only FrameInfo has
    [paramFilled] false. *)
Lemma completion_without_fill :
  ~ (forall n s e s' r,
       reachable_with any_event n s -> step s e = Some s' ->
       ~ In r (completed s) -> In r (completed s') ->
       exists k info, In (k, info) (frameInfo_ s) /\ rq_id (request info) = r
         /\ paramFilled info = true).
Proof.
  intro H.
  assert (R1 : reachable_with any_event 5 demo_wrapped).
  { apply (run_reachable 5 demo_started wrap_events).
    - apply reach_start, demo_session_start.
    - vm_compute; reflexivity. }
  assert (R2 : step demo_wrapped wrap_last = Some demo_wrapped_done)
    by (vm_compute; reflexivity).
  assert (R3 : ~ In 5%nat (completed demo_wrapped)).
  { intro Hc. vm_compute in Hc. destruct Hc as [Hc|[]]. discriminate. }
  assert (R4 : In 5%nat (completed demo_wrapped_done)) by (vm_compute; auto).
  destruct (H 5%nat _ _ _ 5%nat R1 R2 R3 R4) as (k & info & Hin & Hr & Hf).
  assert (Hall : forallb (fun p => negb (Nat.eqb (rq_id (request (snd p))) 5
                                          && paramFilled (snd p)))
                   (frameInfo_ demo_wrapped) = true) by (vm_compute; reflexivity).
  rewrite forallb_forall in Hall. specialize (Hall _ Hin). simpl in Hall.
  rewrite Hr, Hf in Hall. discriminate.
Qed.

(** C2, amended: [tryCompleteRequest] completes a Request without testing
    [paramFilled]; when [queueRequest] never uses a frame number that is
    live in the FrameTable or has a pending QueueBuffers action, every
    Request an event completes had a live FrameInfo with [paramFilled] set
    before the event. *)
Theorem completed_requests_were_filled n s e s' r :
  reachable_with (on_queue frame_unused) n s -> step s e = Some s' ->
  ~ In r (completed s) -> In r (completed s') ->
  exists k info, In (k, info) (frameInfo_ s) /\ rq_id (request info) = r
    /\ paramFilled info = true.
Proof.
  intros Hr Hs Hn Hc.
  exact (step_completion_filled s e s' r (inv3_reachable _ _ _ Hr)
           (fill_inv_reachable _ _ Hr) Hs Hn Hc).
Qed.

(** One frame through its whole life: queued, filled by the IPA, its
    buffers queued, its parameters buffer dequeued, its metadata ready. *)
Definition filled_events : list Ev :=
  [EQueue (demo_request 0); EIpa 0 RKISP1_IPA_ACTION_PARAM_FILLED; EFire 0;
   EParamDone (ParamBuf 0); EIpa 0 RKISP1_IPA_ACTION_METADATA].

Definition demo_filled : St :=
  match run demo_started filled_events with Some s => s | None => demo_started end.

Definition filled_last : Ev := EImageDone (VideoBuf 0) 0.

Definition demo_filled_done : St :=
  match step demo_filled filled_last with Some s => s | None => demo_filled end.

Lemma completed_requests_were_filled_witness :
  reachable_with (on_queue frame_unused) 5 demo_filled
  /\ step demo_filled filled_last = Some demo_filled_done
  /\ ~ In 0%nat (completed demo_filled) /\ In 0%nat (completed demo_filled_done)
  /\ exists k info, In (k, info) (frameInfo_ demo_filled)
       /\ rq_id (request info) = 0%nat /\ paramFilled info = true.
Proof.
  assert (R1 : reachable_with (on_queue frame_unused) 5 demo_filled).
  { apply (run_checked_reachable _ 5 demo_started filled_events).
    - apply reach_start, demo_session_start.
    - vm_compute; reflexivity. }
  assert (R2 : step demo_filled filled_last = Some demo_filled_done)
    by (vm_compute; reflexivity).
  assert (R3 : ~ In 0%nat (completed demo_filled)) by (vm_compute; intros []).
  assert (R4 : In 0%nat (completed demo_filled_done)) by (vm_compute; auto).
  split; [exact R1|]. split; [exact R2|]. split; [exact R3|]. split; [exact R4|].
  exact (completed_requests_were_filled 5 demo_filled filled_last demo_filled_done 0%nat
           R1 R2 R3 R4).
Defined.

(** Request 0 completed by its image buffer after its whole life. *)
Lemma completeRequest_at_most_once_witness :
  reachable_with any_event 5 demo_filled_done
  /\ completed demo_filled_done = [0%nat]
  /\ (NoDup (completed demo_filled_done)
      /\ forall r, In r (completed demo_filled_done) ->
           find_request r demo_filled_done = None
           /\ tryCompleteRequest r demo_filled_done = demo_filled_done).
Proof.
  assert (H : reachable_with any_event 5 demo_filled_done).
  { apply (run_reachable 5 demo_started (filled_events ++ [filled_last])).
    - apply reach_start, demo_session_start.
    - vm_compute; reflexivity. }
  split; [exact H|]. split; [vm_compute; reflexivity|].
  exact (completeRequest_at_most_once 5 demo_filled_done H).
Defined.

(** * Further properties of the pipeline handler *)

(** ** The frame table *)


Lemma map_find_set_same {A} k (v : A) m : map_find k (map_set k v m) = Some v.
Proof.
  induction m as [|[k' v'] t IH]; simpl; [rewrite Z.eqb_refl; reflexivity|].
  destruct (k <? k'); simpl; [rewrite Z.eqb_refl; reflexivity|].
  destruct (k =? k') eqn:E; simpl; [rewrite Z.eqb_refl; reflexivity|].
  rewrite E. exact IH.
Qed.

Lemma map_find_set_other {A} k k' (v : A) m :
  k' <> k -> map_find k' (map_set k v m) = map_find k' m.
Proof.
  intro Hne. induction m as [|[k1 v1] t IH]; simpl.
  - destruct (Z.eqb_spec k' k); [lia|reflexivity].
  - destruct (k <? k1); simpl.
    + destruct (Z.eqb_spec k' k); [lia|reflexivity].
    + destruct (Z.eqb_spec k k1) as [->|]; simpl.
      * destruct (Z.eqb_spec k' k1); [lia|reflexivity].
      * destruct (k' =? k1); [reflexivity|exact IH].
Qed.

Lemma map_find_erase_other {A} k k' (m : list (Z * A)) :
  k' <> k -> map_find k' (map_erase k m) = map_find k' m.
Proof.
  intro Hne. induction m as [|[k1 v1] t IH]; simpl; [reflexivity|].
  destruct (Z.eqb_spec k k1) as [<-|]; simpl.
  - destruct (Z.eqb_spec k' k); [lia|reflexivity].
  - destruct (k' =? k1); [reflexivity|exact IH].
Qed.

Lemma map_find_Forall_gt {A} k (m : list (Z * A)) :
  Forall (fun p => k < fst p) m -> map_find k m = None.
Proof.
  induction m as [|[k1 v1] t IH]; simpl; intro H; [reflexivity|].
  inversion H as [|? ? H1 H2]; subst; simpl in H1.
  destruct (Z.eqb_spec k k1); [lia|auto].
Qed.

Lemma map_find_erase_same {A} k (m : list (Z * A)) :
  keys_sorted m -> map_find k (map_erase k m) = None.
Proof.
  induction m as [|[k1 v1] t IH]; simpl; intro H; [reflexivity|].
  inversion H as [|? ? Ht HF]; subst.
  destruct (Z.eqb_spec k k1) as [<-|Hne].
  - apply map_find_Forall_gt.
    eapply Forall_impl; [|exact HF]. unfold key_lt; simpl; intros; lia.
  - simpl. destruct (Z.eqb_spec k k1); [lia|auto].
Qed.

Lemma buffer_eqb_true a b : buffer_eqb a b = true <-> a = b.
Proof. unfold buffer_eqb. destruct (Buffer_eq_dec a b); split; congruence. Qed.

Lemma holds_test b info :
  buffer_eqb (paramBuffer info) b || buffer_eqb (statBuffer info) b
  || buffer_eqb (videoBuffer info) b = true <-> info_holds b info.
Proof.
  unfold info_holds. rewrite !orb_true_iff, !buffer_eqb_true. tauto.
Qed.

(** X1: [RkISP1Frames::find(Buffer *buffer)] on a sorted table returns the entry of
    least key among those holding the buffer, and only such an entry. *)
Theorem find_buffer_least (b : Buffer) (s : St) (k : Z) (info : RkISP1FrameInfo) :
  keys_sorted (frameInfo_ s) ->
  (find_buffer b s = Some (k, info) <->
   In (k, info) (frameInfo_ s) /\ info_holds b info
   /\ forall k' i', In (k', i') (frameInfo_ s) -> info_holds b i' -> k <= k').
Proof.
  unfold find_buffer. generalize (frameInfo_ s) as m. intros m Hs.
  induction m as [|[k1 i1] t IH]; simpl; [split; [discriminate|tauto]|].
  inversion Hs as [|? ? Ht HF]; subst.
  assert (Hlt : forall k' i', In (k', i') t -> k1 < k').
  { intros k' i' Hin. exact (keys_sorted_In_lt _ _ _ _ Hs Hin). }
  destruct (buffer_eqb (paramBuffer i1) b || buffer_eqb (statBuffer i1) b
            || buffer_eqb (videoBuffer i1) b) eqn:E.
  - apply holds_test in E. split.
    + intros [= <- <-]. split; [left; reflexivity|]. split; [exact E|].
      intros k' i' [[= <- <-]|Hin] _; [lia|]. specialize (Hlt _ _ Hin); lia.
    + intros (Hin & Hh & Hmin). specialize (Hmin k1 i1 (or_introl eq_refl) E).
      destruct Hin as [[= <- <-]|Hin]; [reflexivity|].
      specialize (Hlt _ _ Hin); lia.
  - assert (Hn : ~ info_holds b i1) by (rewrite <- holds_test, E; discriminate).
    rewrite (IH Ht). split.
    + intros (Hin & Hh & Hmin). split; [right; exact Hin|]. split; [exact Hh|].
      intros k' i' [[= <- <-]|Hin'] Hh'; [contradiction|]. eauto.
    + intros ([[= <- <-]|Hin] & Hh & Hmin); [contradiction|].
      split; [exact Hin|]. split; [exact Hh|]. intros k' i' Hin'. apply Hmin. right; exact Hin'.
Qed.

Lemma demo_queued2_sorted : keys_sorted (frameInfo_ demo_queued2).
Proof.
  unfold keys_sorted. vm_compute.
  repeat (constructor || (unfold key_lt; simpl; lia)).
Qed.

Lemma find_buffer_least_witness :
  keys_sorted (frameInfo_ demo_queued2)
  /\ find_buffer (StatBuf 1) demo_queued2 = Some (1, demo_info1).
Proof.
  split; [exact demo_queued2_sorted|].
  apply (find_buffer_least (StatBuf 1) demo_queued2 1 demo_info1 demo_queued2_sorted).
  split; [vm_compute; right; left; reflexivity|].
  split; [right; left; reflexivity|].
  intros k' i' Hin Hh. vm_compute in Hin.
  destruct Hin as [E|[E|[]]]; injection E as <- <-; [|lia].
  unfold info_holds in Hh; simpl in Hh. destruct Hh as [H|[H|H]]; discriminate H.
Defined.

(** X2: [RkISP1Frames::find(Request *request)] on a sorted table returns the entry of
    least key among those of the Request, and only such an entry. *)
Theorem find_request_least (r : nat) (s : St) (k : Z) (info : RkISP1FrameInfo) :
  keys_sorted (frameInfo_ s) ->
  (find_request r s = Some (k, info) <->
   In (k, info) (frameInfo_ s) /\ rq_id (request info) = r
   /\ forall k' i', In (k', i') (frameInfo_ s) -> rq_id (request i') = r -> k <= k').
Proof.
  unfold find_request. generalize (frameInfo_ s) as m. intros m Hs.
  induction m as [|[k1 i1] t IH]; simpl; [split; [discriminate|tauto]|].
  inversion Hs as [|? ? Ht HF]; subst.
  assert (Hlt : forall k' i', In (k', i') t -> k1 < k').
  { intros k' i' Hin. exact (keys_sorted_In_lt _ _ _ _ Hs Hin). }
  destruct (Nat.eqb_spec (rq_id (request i1)) r) as [E|E].
  - split.
    + intros [= <- <-]. split; [left; reflexivity|]. split; [exact E|].
      intros k' i' [[= <- <-]|Hin] _; [lia|]. specialize (Hlt _ _ Hin); lia.
    + intros (Hin & Hh & Hmin). specialize (Hmin k1 i1 (or_introl eq_refl) E).
      destruct Hin as [[= <- <-]|Hin]; [reflexivity|].
      specialize (Hlt _ _ Hin); lia.
  - rewrite (IH Ht). split.
    + intros (Hin & Hh & Hmin). split; [right; exact Hin|]. split; [exact Hh|].
      intros k' i' [[= <- <-]|Hin'] Hh'; [contradiction|]. eauto.
    + intros ([[= <- <-]|Hin] & Hh & Hmin); [contradiction|].
      split; [exact Hin|]. split; [exact Hh|]. intros k' i' Hin'. apply Hmin. right; exact Hin'.
Qed.

Lemma find_request_least_witness :
  keys_sorted (frameInfo_ demo_queued2)
  /\ find_request 1 demo_queued2 = Some (1, demo_info1).
Proof.
  split; [exact demo_queued2_sorted|].
  apply (find_request_least 1 demo_queued2 1 demo_info1 demo_queued2_sorted).
  split; [vm_compute; right; left; reflexivity|].
  split; [reflexivity|].
  intros k' i' Hin Hh. vm_compute in Hin.
  destruct Hin as [E|[E|[]]]; injection E as <- <-; [|lia].
  discriminate Hh.
Defined.

(** X3: [RkISP1Frames::create] fails exactly when a free queue is empty or the
    Request has no buffer for the stream; otherwise (both queues non-empty
    and the Request has a buffer) it pops the head of both
    free queues into a fresh FrameInfo with all flags false, which [find]
    returns at that frame (replacing any previous entry), and leaves every
    other frame's lookup unchanged. *)
Theorem create_spec (fr : Z) (rq : Request) (s : St) :
  match create fr rq s with
  | None => paramBuffers_ s = [] \/ statBuffers_ s = [] \/ rq_has_buffer rq = false
  | Some (info, s') =>
      rq_has_buffer rq = true
      /\ exists pb sb,
        paramBuffers_ s = pb :: paramBuffers_ s'
        /\ statBuffers_ s = sb :: statBuffers_ s'
        /\ info = mkFrameInfo fr rq pb sb (VideoBuf (rq_id rq)) false false false
        /\ find_frame fr s' = Some info
        /\ forall fr', fr' <> fr -> find_frame fr' s' = find_frame fr' s
  end.
Proof.
  unfold create.
  destruct (paramBuffers_ s) as [|pb pq]; [auto|].
  destruct (statBuffers_ s) as [|sb sq]; [auto|].
  unfold findBuffer. destruct (rq_has_buffer rq) eqn:Eh; [|auto].
  split; [reflexivity|].
  exists pb, sb. simpl. split; [reflexivity|]. split; [reflexivity|].
  split; [reflexivity|]. unfold find_frame; simpl.
  split; [apply map_find_set_same|]. intros fr' Hne. apply map_find_set_other, Hne.
Qed.

(** X4: [RkISP1Frames::destroy] on a table whose entries are stored under their
    own frame: for an absent frame it returns [-ENOENT] and changes nothing;
    otherwise it returns 0, the frame is no longer found, every other frame
    is found as before, and the two buffers go back to the tails of the free
    queues. *)
Theorem destroy_spec (fr : Z) (s : St) :
  keys_sorted (frameInfo_ s) ->
  (forall k i, In (k, i) (frameInfo_ s) -> frame i = k) ->
  match find_frame fr s with
  | None => destroy fr s = (- ENOENT, s)
  | Some info =>
      fst (destroy fr s) = 0
      /\ find_frame fr (snd (destroy fr s)) = None
      /\ (forall fr', fr' <> fr ->
            find_frame fr' (snd (destroy fr s)) = find_frame fr' s)
      /\ paramBuffers_ (snd (destroy fr s)) = paramBuffers_ s ++ [paramBuffer info]
      /\ statBuffers_ (snd (destroy fr s)) = statBuffers_ s ++ [statBuffer info]
  end.
Proof.
  intros Hs Hk. unfold destroy.
  destruct (find_frame fr s) as [info|] eqn:Hf; [|reflexivity].
  assert (Hfr : frame info = fr) by (apply Hk, map_find_In, Hf).
  rewrite Hfr. unfold find_frame; simpl.
  split; [reflexivity|]. split; [apply map_find_erase_same, Hs|].
  split; [|split; reflexivity]. intros fr' Hne. apply map_find_erase_other, Hne.
Qed.

Lemma demo_queued2_frames :
  forall k i, In (k, i) (frameInfo_ demo_queued2) -> frame i = k.
Proof.
  intros k i Hin. vm_compute in Hin.
  destruct Hin as [E|[E|[]]]; injection E as <- <-; reflexivity.
Qed.

Lemma destroy_spec_witness :
  keys_sorted (frameInfo_ demo_queued2)
  /\ (forall k i, In (k, i) (frameInfo_ demo_queued2) -> frame i = k)
  /\ fst (destroy 1 demo_queued2) = 0
  /\ find_frame 1 (snd (destroy 1 demo_queued2)) = None
  /\ find_frame 0 (snd (destroy 1 demo_queued2)) = find_frame 0 demo_queued2.
Proof.
  split; [exact demo_queued2_sorted|]. split; [exact demo_queued2_frames|].
  pose proof (destroy_spec 1 demo_queued2 demo_queued2_sorted demo_queued2_frames) as Hd.
  assert (Ef : find_frame 1 demo_queued2 = Some demo_info1) by (vm_compute; reflexivity).
  rewrite Ef in Hd. destruct Hd as (H1 & H2 & H3 & _).
  split; [exact H1|]. split; [exact H2|]. apply H3. discriminate.
Defined.

(** ** Completion by the handlers *)

Lemma tryComplete_shape r s :
  completed (tryCompleteRequest r s) = completed s
  \/ completed (tryCompleteRequest r s) = completed s ++ [r].
Proof.
  unfold tryCompleteRequest.
  destruct (find_request r s) as [[k i]|]; [|auto].
  destruct (hasPendingBuffers r s), (metadataProcessed i), (paramDequeued i);
    simpl; auto.
  rewrite destroy_completed. right; reflexivity.
Qed.

(** X6: An IPA action completes at most one Request, and only a METADATA
    action for a frame with a live FrameInfo completes one: that frame's
    Request. *)
Theorem queueFrameAction_completes_own_frame (fr : Z) (op : IpaOp) (s : St) :
  completed (queueFrameAction fr op s) = completed s
  \/ (op = RKISP1_IPA_ACTION_METADATA
      /\ exists info, find_frame fr s = Some info
         /\ completed (queueFrameAction fr op s) = completed s ++ [rq_id (request info)]).
Proof.
  destruct op; simpl; try (left; reflexivity).
  - destruct (find_frame fr s); left; reflexivity.
  - unfold metadataReady. destruct (find_frame fr s) as [info|] eqn:Hf; [|left; reflexivity].
    destruct (tryComplete_shape (rq_id (request (with_metadataProcessed info)))
                (update_info fr (with_metadataProcessed info) s)) as [H|H];
      rewrite H; [left; reflexivity|right].
    split; [reflexivity|]. exists info. split; [reflexivity|reflexivity].
Qed.

(** X7: [bufferReady] completes at most the Request of the image buffer,
    [paramReady] at most the Request of the FrameInfo holding the buffer,
    and [statReady] completes nothing. *)
Theorem buffer_handlers_complete_own_request (b : Buffer) (sq : Z) (s : St) :
  match bufferReady b sq s with
  | None => True
  | Some s' => completed s' = completed s
               \/ exists r, b = VideoBuf r /\ completed s' = completed s ++ [r]
  end
  /\ match paramReady b s with
     | None => True
     | Some s' => completed s' = completed s
                  \/ exists k info, find_buffer b s = Some (k, info)
                     /\ completed s' = completed s ++ [rq_id (request info)]
     end
  /\ completed (statReady b s) = completed s.
Proof.
  split; [|split].
  - destruct b as [i|i|r]; simpl; auto.
    destruct (tryComplete_shape r
                (completeBuffer r (if frame_ s <=? sq then set_frame (u32 (sq + 1)) s else s)))
      as [H|H]; rewrite H; destruct (frame_ s <=? sq); simpl; eauto.
  - unfold paramReady. destruct (find_buffer b s) as [[k info]|] eqn:Hf; [|exact I].
    destruct (tryComplete_shape (rq_id (request (with_paramDequeued info)))
                (update_info k (with_paramDequeued info) s)) as [H|H];
      rewrite H; [left; reflexivity|right]. exists k, info. split; reflexivity.
  - unfold statReady. destruct (find_buffer b s) as [[k info]|]; reflexivity.
Qed.

(** ** IPA buffer ids *)

Lemma in_slots i m : In i (slots m) <-> 0 <= i < Z.of_nat m.
Proof.
  unfold slots. rewrite in_map_iff. split.
  - intros (j & <- & Hj). apply in_seq in Hj. lia.
  - intros Hi. exists (Z.to_nat i). split; [lia|]. apply in_seq. lia.
Qed.

Lemma NoDup_slots m : NoDup (slots m).
Proof. apply NoDup_map_inj; [intros; lia|apply seq_NoDup]. Qed.

Lemma lor_base_small i :
  0 <= i < 256 ->
  Z.lor RKISP1_PARAM_BASE i = 256 + i /\ Z.lor RKISP1_STAT_BASE i = 512 + i.
Proof.
  intro Hi. assert (Hall : forallb (fun j => (Z.lor RKISP1_PARAM_BASE j =? 256 + j)
                                      && (Z.lor RKISP1_STAT_BASE j =? 512 + j))
                             (slots 256) = true) by (vm_compute; reflexivity).
  rewrite forallb_forall in Hall.
  assert (Hin : In i (slots 256)) by (apply in_slots; lia).
  specialize (Hall i Hin). apply andb_true_iff in Hall as [H1 H2].
  apply Z.eqb_eq in H1, H2. auto.
Qed.

Lemma allocateBuffers_ipaBuffers bufferCount s :
  ipaBuffers_ (snd (allocateBuffers bufferCount 0 0 0 s))
  = ipaBuffers_ s ++ map (Z.lor RKISP1_PARAM_BASE) (slots (Z.to_nat (u32 (bufferCount + 1))))
    ++ map (Z.lor RKISP1_STAT_BASE) (slots (Z.to_nat (u32 (bufferCount + 1)))).
Proof.
  unfold allocateBuffers. cbn -[slots map Z.lor app u32 Z.to_nat].
  rewrite app_assoc. reflexivity.
Qed.

(** The ids of [m] parameters and [m] statistics slots are distinct exactly
    when [m] is at most 256. *)
Lemma ipa_ids_NoDup_iff (m : nat) :
  NoDup (map (Z.lor RKISP1_PARAM_BASE) (slots m) ++ map (Z.lor RKISP1_STAT_BASE) (slots m))
  <-> (m <= 256)%nat.
Proof.
  split.
  - intro Hnd. destruct (Nat.le_gt_cases m 256) as [Hle|Hgt]; [exact Hle|].
    exfalso. apply NoDup_app_remove_r in Hnd.
    assert (E : 0 = 256).
    { apply (NoDup_map_eq (Z.lor RKISP1_PARAM_BASE) (slots m));
        [exact Hnd | apply in_slots; lia | apply in_slots; lia | reflexivity]. }
    discriminate E.
  - intro Hle.
    assert (Hsm : forall i, In i (slots m) -> 0 <= i < 256)
      by (intros i Hi; apply in_slots in Hi; lia).
    rewrite (map_ext_in _ (fun i => 256 + i)), (map_ext_in (Z.lor RKISP1_STAT_BASE) (fun i => 512 + i))
      by (intros i Hi; apply lor_base_small, Hsm, Hi).
    apply NoDup_app.
    + apply NoDup_map_inj; [intros; lia|apply NoDup_slots].
    + apply NoDup_map_inj; [intros; lia|apply NoDup_slots].
    + intros a Ha Hb. apply in_map_iff in Ha as (i & <- & Hi).
      apply in_map_iff in Hb as (j & Hj & Hj'). apply Hsm in Hi, Hj'. lia.
Qed.

(** X8: Starting from an empty IPA buffer list, the ids a successful
    [allocateBuffers] registers are pairwise distinct exactly when
    [bufferCount] is below 256 or is 2^32 - 1: from 256 on, [0x100 | 256]
    equals [0x100 | 0], while at 2^32 - 1 the unsigned [bufferCount + 1] is
    0 and no id is registered. *)
Theorem allocateBuffers_ipa_ids_distinct (bufferCount : Z) (s : St) :
  0 <= bufferCount < 2 ^ 32 -> ipaBuffers_ s = [] ->
  (NoDup (ipaBuffers_ (snd (allocateBuffers bufferCount 0 0 0 s)))
   <-> bufferCount < 256 \/ bufferCount = 2 ^ 32 - 1).
Proof.
  intros Hb H0. rewrite allocateBuffers_ipaBuffers, H0, app_nil_l, ipa_ids_NoDup_iff.
  destruct (Z.eq_dec bufferCount (2 ^ 32 - 1)) as [->|Hne].
  - split; [intros _; right; reflexivity|intros _; vm_compute; apply le_0_n].
  - unfold u32. rewrite Z.mod_small by lia. split.
    + intro Hle. left. lia.
    + intros [Hlt|Heq]; [lia|contradiction].
Qed.

Lemma allocateBuffers_ipa_ids_distinct_witness :
  (0 <= 4 < 2 ^ 32 /\ ipaBuffers_ empty_st = []
   /\ NoDup (ipaBuffers_ (snd (allocateBuffers 4 0 0 0 empty_st))))
  /\ (0 <= 256 < 2 ^ 32 /\ ipaBuffers_ empty_st = []
      /\ ~ NoDup (ipaBuffers_ (snd (allocateBuffers 256 0 0 0 empty_st))))
  /\ (0 <= 2 ^ 32 - 1 < 2 ^ 32 /\ ipaBuffers_ empty_st = []
      /\ NoDup (ipaBuffers_ (snd (allocateBuffers (2 ^ 32 - 1) 0 0 0 empty_st)))).
Proof.
  assert (H4 : 0 <= 4 < 2 ^ 32) by lia.
  assert (H256 : 0 <= 256 < 2 ^ 32) by lia.
  assert (Hmax : 0 <= 2 ^ 32 - 1 < 2 ^ 32) by lia.
  split; [|split].
  - split; [exact H4|]. split; [reflexivity|].
    apply (allocateBuffers_ipa_ids_distinct 4 empty_st H4 eq_refl). left; lia.
  - split; [exact H256|]. split; [reflexivity|].
    rewrite (allocateBuffers_ipa_ids_distinct 256 empty_st H256 eq_refl). lia.
  - split; [exact Hmax|]. split; [reflexivity|].
    apply (allocateBuffers_ipa_ids_distinct (2 ^ 32 - 1) empty_st Hmax eq_refl).
    right; reflexivity.
Defined.



(** ** Configuration validation *)

Lemma clamp_size_in_bounds sz : size_in_bounds (clamp_size sz).
Proof. unfold size_in_bounds, clamp_size; simpl; lia. Qed.

Lemma clamp_size_id sz : size_in_bounds sz -> clamp_size sz = sz.
Proof.
  destruct sz as [w h]; unfold size_in_bounds, clamp_size; simpl; intro H.
  f_equal; lia.
Qed.

Lemma size_eqb_true a b : size_eqb a b = true <-> a = b.
Proof.
  destruct a as [w h], b as [w' h']; unfold size_eqb; simpl.
  rewrite andb_true_iff, !Z.eqb_eq. split; [intros [-> ->]; reflexivity|intros [= -> ->]; auto].
Qed.

Lemma default_size_in_bounds sf sz :
  size_in_bounds sz -> default_size sf sz = Some sz.
Proof.
  unfold default_size, size_in_bounds; intro H.
  destruct (Z.eqb_spec (width sz) 0); [lia|].
  destruct (Z.eqb_spec (height sz) 0); [lia|]. reflexivity.
Qed.

Lemma formats_existsb pf : existsb (Z.eqb pf) formats = true <-> In pf formats.
Proof.
  rewrite existsb_exists. split.
  - intros (x & Hx & E). apply Z.eqb_eq in E; subst; exact Hx.
  - intros H. exists pf. split; [exact H|apply Z.eqb_refl].
Qed.

Lemma NV12_in_formats : In V4L2_PIX_FMT_NV12 formats.
Proof. simpl; tauto. Qed.

Lemma validate_outcome (sensor : CameraSensor) (c : RkISP1CameraConfiguration)
    (st : Status) (c' : RkISP1CameraConfiguration) :
  validate sensor c = Some (st, c') ->
  (st = Invalid <-> config_ c = [])
  /\ (config_ c = [] -> c' = c)
  /\ (config_ c <> [] ->
      exists cfg, config_ c' = [cfg] /\ In (pixelFormat cfg) formats
                  /\ size_in_bounds (size cfg)
                  /\ bufferCount cfg = RKISP1_BUFFER_COUNT).
Proof.
  unfold validate. destruct (config_ c) as [|cfg rest] eqn:Ec.
  - intros [= <- <-]. split; [tauto|]. split; [reflexivity|]. intro H; contradiction.
  - destruct (existsb (Z.eqb (pixelFormat cfg)) formats) eqn:Ef;
    destruct (default_size (select_sensor_format sensor (size cfg)) (size cfg))
      as [sz|]; try discriminate;
    intro H; injection H as <- <-; simpl.
    all: split; [split; [destruct rest, (size_eqb (clamp_size sz) (size cfg)); discriminate
                        |discriminate]|].
    all: split; [discriminate|].
    all: intros _; eexists; split; [reflexivity|].
    all: simpl; split; [|split; [apply clamp_size_in_bounds|reflexivity]].
    + apply formats_existsb, Ef.
    + apply NV12_in_formats.
Qed.

(** X9: [validate] returns Invalid exactly for an empty configuration, which it
    leaves untouched; otherwise it leaves exactly one stream configuration,
    with a supported pixel format, a size within [32, 4416] x [16, 3312]
    and 4 buffers. *)
Theorem validate_result (sensor : CameraSensor) (c : RkISP1CameraConfiguration)
    (st : Status) (c' : RkISP1CameraConfiguration) :
  validate sensor c = Some (st, c') ->
  (st = Invalid <-> config_ c = [])
  /\ (config_ c = [] -> c' = c)
  /\ (config_ c <> [] ->
      exists cfg, config_ c' = [cfg] /\ In (pixelFormat cfg) formats
                  /\ size_in_bounds (size cfg)
                  /\ bufferCount cfg = RKISP1_BUFFER_COUNT).
Proof. exact (validate_outcome sensor c st c'). Qed.

Lemma demo_validate : validate demo_sensor demo_config = Some (Adjusted, demo_adjusted).
Proof. vm_compute. reflexivity. Qed.

Lemma validate_result_witness :
  validate demo_sensor demo_config = Some (Adjusted, demo_adjusted)
  /\ exists cfg, config_ demo_adjusted = [cfg] /\ size_in_bounds (size cfg)
                 /\ bufferCount cfg = RKISP1_BUFFER_COUNT.
Proof.
  split; [exact demo_validate|].
  destruct (validate_result demo_sensor demo_config Adjusted demo_adjusted demo_validate)
    as (_ & _ & H).
  destruct H as (cfg & H1 & _ & H3 & H4); [discriminate|].
  exists cfg. auto.
Defined.

Lemma validate_Valid_char (sensor : CameraSensor) (c c' : RkISP1CameraConfiguration) :
  validate sensor c = Some (Valid, c')
  <-> exists cfg, config_ c = [cfg] /\ In (pixelFormat cfg) formats
                  /\ size_in_bounds (size cfg)
                  /\ c' = mkConfig [mkStreamCfg (pixelFormat cfg) (size cfg) RKISP1_BUFFER_COUNT]
                                   (select_sensor_format sensor (size cfg)).
Proof.
  unfold validate. split.
  - destruct (config_ c) as [|cfg rest]; [discriminate|].
    destruct (existsb (Z.eqb (pixelFormat cfg)) formats) eqn:Ef;
    destruct (default_size (select_sensor_format sensor (size cfg)) (size cfg))
      as [sz|] eqn:Ed; try discriminate;
    destruct (size_eqb (clamp_size sz) (size cfg)) eqn:Es;
    destruct rest; try discriminate.
    intros [= <-]. apply size_eqb_true in Es.
    assert (Hb : size_in_bounds (size cfg)) by (rewrite <- Es; apply clamp_size_in_bounds).
    rewrite default_size_in_bounds in Ed by exact Hb. injection Ed as Ed. subst sz.
    exists cfg. split; [reflexivity|]. split; [apply formats_existsb, Ef|].
    split; [exact Hb|]. rewrite Es. reflexivity.
  - intros (cfg & -> & Hf & Hb & ->).
    apply formats_existsb in Hf. rewrite Hf.
    rewrite default_size_in_bounds by exact Hb. rewrite clamp_size_id by exact Hb.
    destruct (size_eqb (size cfg) (size cfg)) eqn:E; [reflexivity|].
    assert (size_eqb (size cfg) (size cfg) = true) by (apply size_eqb_true; reflexivity).
    congruence.
Qed.

(** X10: [validate] returns Valid exactly for a single stream configuration
    with a supported format and an in-bounds size; it then keeps format and
    size, sets 4 buffers and stores the sensor format for that size. *)
Theorem validate_valid_iff (sensor : CameraSensor) (c c' : RkISP1CameraConfiguration) :
  validate sensor c = Some (Valid, c')
  <-> exists cfg, config_ c = [cfg] /\ In (pixelFormat cfg) formats
                  /\ size_in_bounds (size cfg)
                  /\ c' = mkConfig [mkStreamCfg (pixelFormat cfg) (size cfg) RKISP1_BUFFER_COUNT]
                                   (select_sensor_format sensor (size cfg)).
Proof. exact (validate_Valid_char sensor c c'). Qed.

(** X11: A configuration [validate] has adjusted is Valid for [validate], with
    any sensor, and is left as it is. *)
Theorem validate_idempotent (sensor : CameraSensor) (c : RkISP1CameraConfiguration)
    (st : Status) (c' : RkISP1CameraConfiguration) :
  validate sensor c = Some (st, c') -> config_ c <> [] ->
  forall sensor', exists c'', validate sensor' c' = Some (Valid, c'')
                              /\ config_ c'' = config_ c'.
Proof.
  intros H Hne sensor'.
  destruct (validate_outcome sensor c st c' H) as (_ & _ & H3).
  destruct (H3 Hne) as (cfg & Hc & Hf & Hb & Hn).
  eexists. split.
  - apply validate_Valid_char. exists cfg.
    split; [exact Hc|]. split; [exact Hf|]. split; [exact Hb|reflexivity].
  - simpl. rewrite Hc, <- Hn. destruct cfg; reflexivity.
Qed.

Lemma validate_idempotent_witness :
  validate demo_sensor demo_config = Some (Adjusted, demo_adjusted)
  /\ config_ demo_config <> []
  /\ exists c'', validate null_sensor demo_adjusted = Some (Valid, c'')
                 /\ config_ c'' = config_ demo_adjusted.
Proof.
  split; [exact demo_validate|]. split; [discriminate|].
  apply (validate_idempotent demo_sensor demo_config Adjusted demo_adjusted demo_validate).
  discriminate.
Defined.

Lemma default_size_None sensor sz :
  default_size (select_sensor_format sensor sz) sz = None
  <-> (width sz = 0 \/ height sz = 0)
      /\ (width (sf_size (getFormat sensor sensor_mbus_codes sz)) = 0
          \/ height (sf_size (getFormat sensor sensor_mbus_codes sz)) = 0)
      /\ width (resolution sensor) = 0.
Proof.
  unfold default_size, select_sensor_format.
  set (g := getFormat sensor sensor_mbus_codes sz).
  destruct ((width sz =? 0) || (height sz =? 0)) eqn:Ez.
  2:{ apply orb_false_iff in Ez as [E1 E2]. apply Z.eqb_neq in E1, E2.
      split; [discriminate|]. intros [[H|H] _]; contradiction. }
  apply orb_true_iff in Ez. rewrite !Z.eqb_eq in Ez.
  destruct ((width (sf_size g) =? 0) || (height (sf_size g) =? 0)) eqn:Eg; simpl.
  - apply orb_true_iff in Eg. rewrite !Z.eqb_eq in Eg.
    destruct (Z.eqb_spec (width (resolution sensor)) 0); split; try discriminate; tauto.
  - apply orb_false_iff in Eg as [E1 E2]. apply Z.eqb_neq in E1, E2. rewrite (proj2 (Z.eqb_neq _ _) E1).
    split; [discriminate|]. intros (_ & [H|H] & _); contradiction.
Qed.

(** X12: [validate] divides by zero exactly when the first stream configuration
    has a 0 dimension, the sensor answers with a format with a 0 dimension
    and the sensor resolution has a 0 width. *)
Theorem validate_division_by_zero (sensor : CameraSensor) (c : RkISP1CameraConfiguration) :
  validate sensor c = None
  <-> exists cfg rest, config_ c = cfg :: rest
      /\ (width (size cfg) = 0 \/ height (size cfg) = 0)
      /\ (width (sf_size (getFormat sensor sensor_mbus_codes (size cfg))) = 0
          \/ height (sf_size (getFormat sensor sensor_mbus_codes (size cfg))) = 0)
      /\ width (resolution sensor) = 0.
Proof.
  unfold validate. destruct (config_ c) as [|cfg rest].
  - split; [discriminate|]. intros (? & ? & H & _); discriminate.
  - split.
    + intro H. exists cfg, rest. split; [reflexivity|]. apply default_size_None.
      destruct (existsb (Z.eqb (pixelFormat cfg)) formats);
      destruct (default_size (select_sensor_format sensor (size cfg)) (size cfg));
      congruence.
    + intros (cfg' & rest' & [= <- <-] & H). apply default_size_None in H. rewrite H.
      destruct (existsb (Z.eqb (pixelFormat cfg)) formats); reflexivity.
Qed.

(** X13: For a non-empty list of roles and a sensor whose resolution has no 0
    dimension, [generateConfiguration] returns one NV12 stream at the sensor
    resolution clamped to the hardware bounds, with 4 buffers. *)
Theorem generateConfiguration_default (sensor : CameraSensor) (roles : list StreamRole) :
  roles <> [] -> width (resolution sensor) <> 0 -> height (resolution sensor) <> 0 ->
  generateConfiguration sensor roles
  = Some (mkConfig [mkStreamCfg V4L2_PIX_FMT_NV12 (clamp_size (resolution sensor))
                                RKISP1_BUFFER_COUNT]
                   (select_sensor_format sensor (resolution sensor))).
Proof.
  intros Hr Hw Hh. unfold generateConfiguration.
  destruct roles as [|r rs]; [contradiction|]. unfold validate; simpl.
  unfold default_size.
  destruct (Z.eqb_spec (width (resolution sensor)) 0); [contradiction|].
  destruct (Z.eqb_spec (height (resolution sensor)) 0); [contradiction|].
  reflexivity.
Qed.

Lemma generateConfiguration_default_witness :
  [Viewfinder] <> [] /\ width (resolution demo_sensor) <> 0
  /\ height (resolution demo_sensor) <> 0
  /\ generateConfiguration demo_sensor [Viewfinder]
     = Some (mkConfig [mkStreamCfg V4L2_PIX_FMT_NV12 (mkSize 2592 1944) RKISP1_BUFFER_COUNT]
                      (mkSubdevFmt MEDIA_BUS_FMT_SBGGR10_1X10 (mkSize 2592 1944))).
Proof.
  assert (H1 : [Viewfinder] <> []) by discriminate.
  assert (H2 : width (resolution demo_sensor) <> 0) by (simpl; lia).
  assert (H3 : height (resolution demo_sensor) <> 0) by (simpl; lia).
  split; [exact H1|]. split; [exact H2|]. split; [exact H3|].
  rewrite (generateConfiguration_default demo_sensor [Viewfinder] H1 H2 H3).
  vm_compute. reflexivity.
Defined.



(** ** [configure] *)

Lemma configure_links_trace (env : ConfigureEnv) (sensor n : nat) (links : list MediaLink) :
  let todo := filter (needs_change sensor) links in
  match configure_links env sensor n links with
  | (None, cs) =>
      cs = map (set_link_call sensor) todo
      /\ forall i, (i < length todo)%nat -> 0 <= link_ret env (n + i)
  | (Some r, cs) =>
      exists i, (i < length todo)%nat /\ link_ret env (n + i) = r /\ r < 0
      /\ (forall j, (j < i)%nat -> 0 <= link_ret env (n + j))
      /\ cs = map (set_link_call sensor) (firstn (S i) todo)
  end.
Proof.
  cbv zeta. revert n. induction links as [|l t IH]; intro n.
  - simpl. split; [reflexivity|]. intros i Hi; simpl in Hi; lia.
  - cbn [configure_links filter].
    assert (Hn : needs_change sensor l
                 = negb (Bool.eqb (link_enabled l) (Nat.eqb (link_source l) sensor)))
      by reflexivity.
    rewrite Hn.
    destruct (Bool.eqb (link_enabled l) (Nat.eqb (link_source l) sensor)); cbn [negb];
      [exact (IH n)|].
    destruct (Z.ltb_spec (link_ret env n) 0) as [Hl|Hl].
    + exists 0%nat. rewrite Nat.add_0_r. cbn [length firstn map].
      repeat split; try lia; auto.
    + specialize (IH (S n)).
      destruct (configure_links env sensor (S n) t) as [[r|] cs].
      * destruct IH as (i & Hi & Hr & Hneg & Hpre & Hcs).
        exists (S i). cbn [length firstn map].
        rewrite Nat.add_succ_r, <- Nat.add_succ_l.
        split; [lia|]. split; [exact Hr|]. split; [exact Hneg|]. split.
        -- intros [|j] Hj; [rewrite Nat.add_0_r; exact Hl|].
           rewrite Nat.add_succ_r, <- Nat.add_succ_l. apply Hpre; lia.
        -- rewrite Hcs. reflexivity.
      * destruct IH as [Hcs Hok]. split; [rewrite Hcs; reflexivity|].
        intros [|i] Hi; [rewrite Nat.add_0_r; exact Hl|].
        rewrite Nat.add_succ_r, <- Nat.add_succ_l. apply Hok. simpl in Hi; lia.
Qed.

(** X14: The link loop of [configure] calls [setEnabled] exactly on the links
    whose state differs from the wanted one (enabled iff its source is the
    camera's sensor), in order, and stops at the first negative result,
    which it returns. *)
Theorem configure_links_calls (env : ConfigureEnv) (sensor n : nat) (links : list MediaLink) :
  let todo := filter (needs_change sensor) links in
  match configure_links env sensor n links with
  | (None, cs) =>
      cs = map (set_link_call sensor) todo
      /\ forall i, (i < length todo)%nat -> 0 <= link_ret env (n + i)
  | (Some r, cs) =>
      exists i, (i < length todo)%nat /\ link_ret env (n + i) = r /\ r < 0
      /\ (forall j, (j < i)%nat -> 0 <= link_ret env (n + j))
      /\ cs = map (set_link_call sensor) (firstn (S i) todo)
  end.
Proof. exact (configure_links_trace env sensor n links). Qed.

Lemma configure_links_err_neg env sensor n links r cs :
  configure_links env sensor n links = (Some r, cs) -> r < 0.
Proof.
  intro H. pose proof (configure_links_trace env sensor n links) as Hc.
  simpl in Hc. rewrite H in Hc. destruct Hc as (i & _ & _ & Hr & _). exact Hr.
Qed.

(** X15: [configure] attaches the stream exactly when it returns 0, and then it
    has run the link loop to its end, propagated the sensor format through
    the CSI-2 receiver to the ISP, requested YUYV8_2X8 at the ISP size on
    the ISP source pad, and the capture device accepted the requested pixel
    format and size. *)
Theorem configure_success (env : ConfigureEnv) (sensor : nat) (links : list MediaLink)
    (c : RkISP1CameraConfiguration) (r : Z) (cs : list ConfCall) (set : bool) :
  configure env sensor links c = Some (r, cs, set) ->
  (set = true <-> r = 0)
  /\ (r = 0 ->
      exists cfg rest cs0, config_ c = cfg :: rest
      /\ configure_links env sensor 0 links = (None, cs0)
      /\ (let f1 := snd (sensor_setFormat env (sensorFormat_ c)) in
          let f3 := snd (dphy_getFormat env) in
          let f4 := snd (isp_setFormat env 0 f3) in
          let fout := mkDevFmt (pixelFormat cfg) (size cfg) 2 in
          cs = cs0 ++ [CSensorSetFormat (sensorFormat_ c); CDphySetFormat 0 f1;
                       CDphyGetFormat 1; CIspSetFormat 0 f3;
                       CIspSetFormat 2 (mkSubdevFmt MEDIA_BUS_FMT_YUYV8_2X8 (sf_size f4));
                       CVideoSetFormat fout;
                       CParamSetFormat (mkDevFmt V4L2_META_FMT_RK_ISP1_PARAMS (mkSize 0 0) 0);
                       CStatSetFormat (mkDevFmt V4L2_META_FMT_RK_ISP1_STAT_3A (mkSize 0 0) 0)]
          /\ fst (video_setFormat env fout) = 0
          /\ fourcc (snd (video_setFormat env fout)) = pixelFormat cfg
          /\ dev_size (snd (video_setFormat env fout)) = size cfg)).
Proof.
  unfold configure. destruct (config_ c) as [|cfg rest] eqn:Ec; [discriminate|].
  destruct (configure_links env sensor 0 links) as [[e|] cs0] eqn:El.
  - intros [= <- <- <-]. apply configure_links_err_neg in El.
    split; [split; [discriminate|lia]|lia].
  - destruct (sensor_setFormat env (sensorFormat_ c)) as [r1 f1] eqn:E1.
    destruct (r1 <? 0) eqn:L1.
    { intros [= <- <- <-]. apply Z.ltb_lt in L1. split; [split; [discriminate|lia]|lia]. }
    destruct (dphy_setFormat env f1) as [r2 f2] eqn:E2.
    destruct (r2 <? 0) eqn:L2.
    { intros [= <- <- <-]. apply Z.ltb_lt in L2. split; [split; [discriminate|lia]|lia]. }
    destruct (dphy_getFormat env) as [r3 f3] eqn:E3.
    destruct (r3 <? 0) eqn:L3.
    { intros [= <- <- <-]. apply Z.ltb_lt in L3. split; [split; [discriminate|lia]|lia]. }
    destruct (isp_setFormat env 0 f3) as [r4 f4] eqn:E4.
    destruct (r4 <? 0) eqn:L4.
    { intros [= <- <- <-]. apply Z.ltb_lt in L4. split; [split; [discriminate|lia]|lia]. }
    destruct (isp_setFormat env 2 (mkSubdevFmt MEDIA_BUS_FMT_YUYV8_2X8 (sf_size f4)))
      as [r5 f5] eqn:E5.
    destruct (r5 <? 0) eqn:L5.
    { intros [= <- <- <-]. apply Z.ltb_lt in L5. split; [split; [discriminate|lia]|lia]. }
    destruct (video_setFormat env (mkDevFmt (pixelFormat cfg) (size cfg) 2)) as [r6 f6] eqn:E6.
    destruct (negb (r6 =? 0)) eqn:L6.
    { intros [= <- <- <-]. apply negb_true_iff, Z.eqb_neq in L6.
      split; [split; [discriminate|lia]|lia]. }
    destruct (negb (size_eqb (dev_size f6) (size cfg)) || negb (fourcc f6 =? pixelFormat cfg))
      eqn:L7.
    { intros [= <- <- <-]. unfold EINVAL. split; [split; [discriminate|lia]|lia]. }
    destruct (param_setFormat env (mkDevFmt V4L2_META_FMT_RK_ISP1_PARAMS (mkSize 0 0) 0))
      as [r8 f8] eqn:E8.
    destruct (negb (r8 =? 0)) eqn:L8.
    { intros [= <- <- <-]. apply negb_true_iff, Z.eqb_neq in L8.
      split; [split; [discriminate|lia]|lia]. }
    destruct (stat_setFormat env (mkDevFmt V4L2_META_FMT_RK_ISP1_STAT_3A (mkSize 0 0) 0))
      as [r9 f9] eqn:E9.
    destruct (negb (r9 =? 0)) eqn:L9.
    { intros [= <- <- <-]. apply negb_true_iff, Z.eqb_neq in L9.
      split; [split; [discriminate|lia]|lia]. }
    intros [= <- <- <-]. split; [tauto|]. intros _.
    exists cfg, rest, cs0. split; [reflexivity|]. split; [reflexivity|].
    apply negb_false_iff, Z.eqb_eq in L6.
    apply orb_false_iff in L7 as [L7a L7b].
    apply negb_false_iff in L7a, L7b. apply Z.eqb_eq in L7b.
    apply size_eqb_true in L7a.
    cbv zeta. simpl.
    rewrite E6. simpl.
    split; [rewrite E4, <- !app_assoc; reflexivity|]. split; [exact L6|].
    split; [exact L7b|exact L7a].
Qed.

Lemma demo_configure :
  configure demo_env 1 demo_links demo_adjusted = Some (0, demo_calls, true).
Proof. vm_compute. reflexivity. Qed.

Lemma configure_success_witness :
  configure demo_env 1 demo_links demo_adjusted = Some (0, demo_calls, true)
  /\ exists cfg rest cs0, config_ demo_adjusted = cfg :: rest
                         /\ configure_links demo_env 1 0 demo_links = (None, cs0).
Proof.
  split; [exact demo_configure|].
  destruct (configure_success demo_env 1 demo_links demo_adjusted 0 demo_calls true
              demo_configure) as (_ & H).
  destruct (H eq_refl) as (cfg & rest & cs0 & H1 & H2 & _).
  exists cfg, rest, cs0. split; assumption.
Defined.

(** ** [match] *)

Lemma create_cameras_spec env i sensors cams :
  create_cameras env i sensors cams = cams ++ ok_sensors env i sensors.
Proof.
  revert i cams. induction sensors as [|sn t IH]; intros i cams; simpl.
  - unfold ok_sensors; simpl. rewrite app_nil_r. reflexivity.
  - rewrite IH. unfold ok_sensors; simpl. unfold createCamera, loadIPA.
    destruct (Z.eqb_spec (sensor_init_ret env i) 0) as [E|E]; simpl.
    + destruct (createIPA_ok env i); simpl; [rewrite <- app_assoc; reflexivity|reflexivity].
    + reflexivity.
Qed.

Lemma open_nodes_all env :
  open_nodes env [NDphy; NIsp; NMainpath; NStatistics; NInputParams] = true
  <-> forall n, 0 <= open_ret env n.
Proof.
  simpl. split.
  - intros H n.
    destruct (Z.ltb_spec (open_ret env NDphy) 0); [discriminate|].
    destruct (Z.ltb_spec (open_ret env NIsp) 0); [discriminate|].
    destruct (Z.ltb_spec (open_ret env NMainpath) 0); [discriminate|].
    destruct (Z.ltb_spec (open_ret env NStatistics) 0); [discriminate|].
    destruct (Z.ltb_spec (open_ret env NInputParams) 0); [discriminate|].
    destruct n; assumption.
  - intro H. rewrite !(proj2 (Z.ltb_ge _ _) (H _)). reflexivity.
Qed.

Lemma initLinks_ok env :
  0 <= initLinks env
  <-> 0 <= disableLinks_ret env
      /\ (exists r, dphy_isp_link env = Some r /\ 0 <= r)
      /\ (exists r, isp_main_link env = Some r /\ 0 <= r).
Proof.
  unfold initLinks, ENODEV.
  destruct (Z.ltb_spec (disableLinks_ret env) 0).
  { split; [lia|intros [H' _]; lia]. }
  destruct (dphy_isp_link env) as [r1|].
  2:{ split; [lia|intros (_ & (r & H' & _) & _); discriminate]. }
  destruct (Z.ltb_spec r1 0).
  { split; [lia|intros (_ & (r & [= <-] & H') & _); lia]. }
  destruct (isp_main_link env) as [r2|].
  2:{ split; [lia|intros (_ & _ & (r & H' & _)); discriminate]. }
  destruct (Z.ltb_spec r2 0).
  { split; [lia|intros (_ & _ & (r & [= <-] & H')); lia]. }
  split; [intros _; split; [lia|split; eauto]|lia].
Qed.

(** X16: [match] succeeds exactly when the media device is acquired, the five
    nodes open, [initLinks] succeeds and the receiver's pad 0 exists; the
    buffer handlers are connected exactly when the nodes open; the cameras
    registered are the sensors whose [init()] and IPA creation succeed, and
    their failures do not make [match] fail. *)
Theorem match_outcome (env : MatchEnv) :
  let '(ok, connected, cameras) := match_ env in
  (ok = true <->
     acquired env = true /\ (forall n, 0 <= open_ret env n)
     /\ 0 <= disableLinks_ret env
     /\ (exists r, dphy_isp_link env = Some r /\ 0 <= r)
     /\ (exists r, isp_main_link env = Some r /\ 0 <= r)
     /\ dphy_pad0 env <> None)
  /\ (connected = true <-> acquired env = true /\ forall n, 0 <= open_ret env n)
  /\ cameras = match dphy_pad0 env with
               | Some sensors => if ok then ok_sensors env 0 sensors else []
               | None => []
               end.
Proof.
  unfold match_.
  destruct (acquired env) eqn:Ea; cbn [negb].
  2:{ split; [split; [discriminate|intros [H _]; discriminate]|].
      split; [split; [discriminate|intros [H _]; discriminate]|].
      destruct (dphy_pad0 env); reflexivity. }
  pose proof (open_nodes_all env) as Ho.
  destruct (open_nodes env [NDphy; NIsp; NMainpath; NStatistics; NInputParams]) eqn:En;
    cbn [negb].
  2:{ split; [split; [discriminate|intros (_ & H & _); apply Ho in H; discriminate]|].
      split; [split; [discriminate|intros (_ & H); apply Ho in H; discriminate]|].
      destruct (dphy_pad0 env); reflexivity. }
  pose proof (initLinks_ok env) as Hi.
  destruct (Z.ltb_spec (initLinks env) 0) as [Hl|Hl].
  { split; [split; [discriminate|intros (_ & _ & H1 & H2 & H3 & _)]|].
    { assert (0 <= initLinks env) by (apply Hi; auto). lia. }
    split; [split; [intros _; split; [reflexivity|apply Ho; reflexivity]|reflexivity]|].
    destruct (dphy_pad0 env); reflexivity. }
  apply Hi in Hl as (H1 & H2 & H3).
  destruct (dphy_pad0 env) as [sensors|] eqn:Ep.
  - split; [split; [intros _; repeat split; auto; [apply Ho; reflexivity|discriminate]|reflexivity]|].
    split; [split; [intros _; split; [reflexivity|apply Ho; reflexivity]|reflexivity]|].
    apply create_cameras_spec.
  - split; [split; [discriminate|intros (_ & _ & _ & _ & _ & H); contradiction]|].
    split; [split; [intros _; split; [reflexivity|apply Ho; reflexivity]|reflexivity]|].
    reflexivity.
Qed.
